(** * Todo list application: storage adapter, state owner, notification sink

    A shallow embedding of
      - [utils/sessionStorage.ts]   ([isValidTodos], [loadTodos], [saveTodos]),
      - [contexts/TodoContext.tsx]  ([TodoProvider] and its four operations),
      - [components/Toast]          ([ToastProvider]: [showToast], [dismissToast]),
    together with the properties the specification states about them.

    JavaScript values are an inductive type, objects are field lists in
    insertion order, [sessionStorage] is a finite map with injectable faults,
    and [try]/[catch] is an explicit state-and-exception monad. *)

From Stdlib Require Import Ascii String.
From stdpp Require Import base numbers list strings gmap pretty.

Local Open Scope string_scope.
Local Open Scope list_scope.
Local Open Scope Z_scope.

(* ===================================================================== *)
(** ** JavaScript values *)
(* ===================================================================== *)

Module Js.

(** The run-time values that reach the code.  A [Date] carries its time
    value in milliseconds since the epoch, [None] being the Invalid Date
    (time value NaN).  Numbers are the integer-valued ones.  An object is
    the list of its own enumerable properties in insertion order. *)
#[local] Unset Elimination Schemes.
Inductive JsValue : Type :=
| JUndefined
| JNull
| JBool (b : bool)
| JNum (n : Z)
| JStr (s : string)
| JDate (tv : option Z)
| JArr (elems : list JsValue)
| JObj (fields : list (string * JsValue)).
#[local] Set Elimination Schemes.

(** [typeof v] *)
Definition typeof (v : JsValue) : string :=
  match v with
  | JUndefined => "undefined"
  | JNull => "object"
  | JBool _ => "boolean"
  | JNum _ => "number"
  | JStr _ => "string"
  | JDate _ | JArr _ | JObj _ => "object"
  end.

(** [Array.isArray(v)] *)
Definition Array_isArray (v : JsValue) : bool :=
  match v with JArr _ => true | _ => false end.

(** [v instanceof Date] *)
Definition instanceof_Date (v : JsValue) : bool :=
  match v with JDate _ => true | _ => false end.

(** [v !== null] *)
Definition not_null (v : JsValue) : bool :=
  match v with JNull => false | _ => true end.

(** Lookup of an own property in a field list: the first binding, and
    [undefined] when there is none. *)
Fixpoint obj_get (k : string) (fields : list (string * JsValue)) : JsValue :=
  match fields with
  | [] => JUndefined
  | (k', v) :: rest => if String.eqb k' k then v else obj_get k rest
  end.

(** Assignment of an own property: an existing key keeps its position, a
    new key goes last. *)
Fixpoint obj_set (k : string) (v : JsValue) (fields : list (string * JsValue))
  : list (string * JsValue) :=
  match fields with
  | [] => [(k, v)]
  | (k', v') :: rest =>
      if String.eqb k' k then (k, v) :: rest else (k', v') :: obj_set k v rest
  end.

(** [Object.hasOwn(fields, k)] *)
Definition obj_has (k : string) (fields : list (string * JsValue)) : bool :=
  existsb (fun kv => String.eqb kv.1 k) fields.

(** The own enumerable properties copied by a spread [...v].  Only plain
    objects occur as spread operands in the code. *)
Definition own_props (v : JsValue) : list (string * JsValue) :=
  match v with JObj fields => fields | _ => [] end.

(** [{ ...base, ...updates }] on field lists. *)
Definition spread (base updates : list (string * JsValue))
  : list (string * JsValue) :=
  fold_left (fun acc kv => obj_set kv.1 kv.2 acc) updates base.

(** [v.k] for a value that is not [null] or [undefined]: none of the names
    read by the code is an inherited property of arrays, dates or
    primitives. *)
Definition get_prop (v : JsValue) (k : string) : JsValue :=
  obj_get k (own_props v).

(** [ToBoolean(v)] *)
Definition truthy (v : JsValue) : bool :=
  match v with
  | JUndefined | JNull => false
  | JBool b => b
  | JNum n => negb (Z.eqb n 0)
  | JStr s => negb (String.eqb s "")
  | JDate _ | JArr _ | JObj _ => true
  end.

(** The elements visited by [v.map], [v.every] and [v.filter]. *)
Definition array_elems (v : JsValue) : list JsValue :=
  match v with JArr elems => elems | _ => [] end.

(** [v === s] against a string *)
Definition strict_eq_str (v : JsValue) (s : string) : bool :=
  match v with JStr s' => String.eqb s' s | _ => false end.

End Js.
Export Js.

(* ===================================================================== *)
(** ** The shape predicate, [isValidTodos] *)
(* ===================================================================== *)

(** The body of the callback handed to [data.every]. *)
Definition isValidTodo (item : JsValue) : bool :=
  String.eqb (typeof item) "object" &&
  not_null item &&
  String.eqb (typeof (get_prop item "id")) "string" &&
  String.eqb (typeof (get_prop item "title")) "string" &&
  String.eqb (typeof (get_prop item "description")) "string" &&
  String.eqb (typeof (get_prop item "completed")) "boolean" &&
  (instanceof_Date (get_prop item "createdAt") ||
   String.eqb (typeof (get_prop item "createdAt")) "string").

Definition isValidTodos (data : JsValue) : bool :=
  if negb (Array_isArray data) then false
  else forallb isValidTodo (array_elems data).

(* ===================================================================== *)
(** ** Effects: [sessionStorage], the console, exceptions *)
(* ===================================================================== *)

(** A thrown value, as far as a [catch] clause of the code inspects it:
    whether it is an [Error] instance, and its [name]. *)
Record JsError : Type := mkError {
  err_instanceof_Error : bool;
  err_name : string;
  err_message : string
}.

Definition SyntaxError (msg : string) : JsError :=
  {| err_instanceof_Error := true; err_name := "SyntaxError"; err_message := msg |}.
Definition TypeError (msg : string) : JsError :=
  {| err_instanceof_Error := true; err_name := "TypeError"; err_message := msg |}.

(** [window.sessionStorage]: the stored items, and for each method the
    exception it throws when the underlying store refuses the call. *)
Record Storage : Type := mkStorage {
  items : gmap string string;
  getItem_fault : option JsError;
  setItem_fault : option JsError;
  removeItem_fault : option JsError
}.

(** One [console.warn] call: the message and the value logged with it. *)
Inductive LogEntry : Type :=
| Warn (msg : string) (detail : option JsError).

Record Env : Type := mkEnv {
  sessionStorage : Storage;
  console : list LogEntry
}.

Definition with_items (f : gmap string string → gmap string string) (e : Env) : Env :=
  let s := sessionStorage e in
  {| sessionStorage :=
       {| items := f (items s);
          getItem_fault := getItem_fault s;
          setItem_fault := setItem_fault s;
          removeItem_fault := removeItem_fault s |};
     console := console e |}.

(** How a computation ends. *)
Inductive Completion (A : Type) : Type :=
| Normal (a : A)
| Throw (err : JsError).
Arguments Normal {A} a.
Arguments Throw {A} err.

(** A computation reads and writes the environment and ends normally or
    by throwing; the environment survives a throw. *)
Definition Eff (A : Type) : Type := Env → Env * Completion A.

Definition ret {A} (a : A) : Eff A := fun e => (e, Normal a).
Definition throw {A} (err : JsError) : Eff A := fun e => (e, Throw err).

Definition bind {A B} (m : Eff A) (k : A → Eff B) : Eff B :=
  fun e =>
    match m e with
    | (e', Normal a) => k a e'
    | (e', Throw err) => (e', Throw err)
    end.

(** [try { body } catch (error) { handler }] *)
Definition try_catch {A} (body : Eff A) (handler : JsError → Eff A) : Eff A :=
  fun e =>
    match body e with
    | (e', Normal a) => (e', Normal a)
    | (e', Throw err) => handler err e'
    end.

Declare Scope eff_scope.
Delimit Scope eff_scope with eff.
Notation "'let!' x ':=' m 'in' k" := (bind m (fun x => k))
  (at level 10, x binder, k at level 200) : eff_scope.
Local Open Scope eff_scope.

(** [window.sessionStorage.getItem(key)] *)
Definition getItem (key : string) : Eff (option string) :=
  fun e =>
    match getItem_fault (sessionStorage e) with
    | Some err => (e, Throw err)
    | None => (e, Normal (items (sessionStorage e) !! key))
    end.

(** [window.sessionStorage.setItem(key, value)] *)
Definition setItem (key value : string) : Eff unit :=
  fun e =>
    match setItem_fault (sessionStorage e) with
    | Some err => (e, Throw err)
    | None => (with_items (insert key value) e, Normal tt)
    end.

(** [window.sessionStorage.removeItem(key)] *)
Definition removeItem (key : string) : Eff unit :=
  fun e =>
    match removeItem_fault (sessionStorage e) with
    | Some err => (e, Throw err)
    | None => (with_items (delete key) e, Normal tt)
    end.

(** [console.warn(msg)] and [console.warn(msg, error)] *)
Definition console_warn (msg : string) (detail : option JsError) : Eff unit :=
  fun e =>
    ({| sessionStorage := sessionStorage e;
        console := console e ++ [Warn msg detail] |}, Normal tt).

(* ===================================================================== *)
(** ** The platform: [JSON] and [Date] *)
(* ===================================================================== *)

(** The built-ins the adapter calls.  [Date_parse s] is the time value of
    [new Date(s)], [None] for the Invalid Date; [Date_toISOString] is
    applied to the time value of a valid date.  [JSON_parse] is [None]
    where [JSON.parse] throws a [SyntaxError]; [JSON_stringify] yields the
    text, or the exception it throws. *)
Class DateAPI : Type := {
  Date_parse : string → option Z;
  Date_toISOString : Z → string
}.

Class JSONAPI : Type := {
  JSON_parse : string → option JsValue;
  JSON_stringify : JsValue → Completion string
}.

Section Serialisation.
Context `{D : DateAPI}.

(** What [JSON.stringify] writes for a value, as the JSON value its text
    denotes: a date becomes its [toJSON()] (the ISO string, or [null] for the
    Invalid Date), an [undefined] array element becomes [null], and an
    [undefined] property is left out. *)
Fixpoint toJSON (v : JsValue) : JsValue :=
  match v with
  | JDate (Some t) => JStr (Date_toISOString t)
  | JDate None => JNull
  | JArr elems =>
      JArr (map (fun x => match x with JUndefined => JNull | _ => toJSON x end) elems)
  | JObj fields =>
      JObj ((fix props (fs : list (string * JsValue)) : list (string * JsValue) :=
               match fs with
               | [] => []
               | (k, JUndefined) :: rest => props rest
               | (k, x) :: rest => (k, toJSON x) :: props rest
               end) fields)
  | _ => v
  end.

End Serialisation.

Section Adapter.
Context `{D : DateAPI} `{J : JSONAPI}.

(** [JSON.parse(text)] as a computation. *)
Definition JSON_parse_eff (text : string) : Eff JsValue :=
  match JSON_parse text with
  | Some v => ret v
  | None => throw (SyntaxError "Unexpected token in JSON")
  end.

(** [JSON.stringify(v)] as a computation. *)
Definition JSON_stringify_eff (v : JsValue) : Eff string :=
  fun e => (e, JSON_stringify v).

(* ===================================================================== *)
(** ** The storage adapter: [loadTodos] and [saveTodos] *)
(* ===================================================================== *)

Definition STORAGE_KEY : string := "todos".

Definition WARN_INVALID : string :=
  "Invalid todos data in sessionStorage, clearing and using empty array".
Definition WARN_LOAD_FAILED : string :=
  "Failed to load todos from sessionStorage:".
Definition WARN_QUOTA : string :=
  "SessionStorage quota exceeded, continuing with in-memory state".
Definition WARN_SAVE_FAILED : string :=
  "Failed to save todos to sessionStorage:".
Definition MSG_QUOTA : string :=
  "Storage quota exceeded â€“ your latest changes may not be saved.".
Definition MSG_SAVE_FAILED : string :=
  "Failed to save todos to storage.".

(** The callback of [parsed.map] in [loadTodos]:
    [{ ...todo, createdAt: typeof todo.createdAt === 'string'
                             ? new Date(todo.createdAt) : todo.createdAt }] *)
Definition reviveTodo (todo : JsValue) : JsValue :=
  let createdAt := get_prop todo "createdAt" in
  JObj (obj_set "createdAt"
          (match createdAt with
           | JStr s => JDate (Date_parse s)
           | _ => createdAt
           end)
          (own_props todo)).

Definition loadTodos : Eff (list JsValue) :=
  try_catch
    (let! stored := getItem STORAGE_KEY in
     match stored with
     | None => ret []
     | Some raw =>
         if String.eqb raw "" then ret []
         else
           let! parsed := JSON_parse_eff raw in
           if negb (isValidTodos parsed) then
             let! _ := console_warn WARN_INVALID None in
             let! _ := removeItem STORAGE_KEY in
             ret []
           else
             ret (map reviveTodo (array_elems parsed))
     end)
    (fun error =>
       let! _ := console_warn WARN_LOAD_FAILED (Some error) in
       let! _ := try_catch (removeItem STORAGE_KEY) (fun _ => ret tt) in
       ret []).

(** The value [saveTodos] returns: [{ success, error? }]. *)
Record SaveResult : Type := mkSaveResult {
  success : bool;
  error : option string
}.

Definition saveTodos (todos : list JsValue) : Eff SaveResult :=
  try_catch
    (let! serialized := JSON_stringify_eff (JArr todos) in
     let! _ := setItem STORAGE_KEY serialized in
     ret {| success := true; error := None |})
    (fun err =>
       if err_instanceof_Error err && String.eqb (err_name err) "QuotaExceededError"
       then
         let! _ := console_warn WARN_QUOTA None in
         ret {| success := false; error := Some MSG_QUOTA |}
       else
         let! _ := console_warn WARN_SAVE_FAILED (Some err) in
         ret {| success := false; error := Some MSG_SAVE_FAILED |}).

End Adapter.

(* ===================================================================== *)
(** ** The notification sink: [ToastProvider] *)
(* ===================================================================== *)

Module Toast.

Inductive ToastType : Type := error | warning | success | info.

Record ToastMessage : Type := mkToast {
  id : string;
  message : string;
  type : ToastType;
  duration : Z
}.

End Toast.

(** [Number.prototype.toString] of an integer: its decimal digits. *)
Definition Number_toString (n : Z) : string := pretty n.

(* ===================================================================== *)
(** ** The component tree: [ToastProvider] around [TodoProvider] *)
(* ===================================================================== *)

(** An array held in component state: React compares states and effect
    dependencies with [Object.is], which for arrays is identity, so the
    array carries the identity it was allocated with. *)
Record ArrayRef : Type := mkArray {
  ref : nat;
  contents : list JsValue
}.

(** [Object.is(a, b)] on two arrays *)
Definition Object_is (a b : ArrayRef) : bool := Nat.eqb (ref a) (ref b).

(** The state of the running application. *)
Record World : Type := mkWorld {
  env : Env;                           (* sessionStorage and console *)
  clock : Z;                           (* what Date.now() returns *)
  next_ref : nat;                      (* identity of the next allocation *)
  todos : ArrayRef;                    (* useState of TodoProvider *)
  toasts : list Toast.ToastMessage;    (* useState of ToastProvider *)
  timers : list (Z * string);          (* pending setTimeout: due time, toast id *)
  saved : list (list JsValue)          (* arguments of the saveTodos calls so far *)
}.

Definition set_env (e : Env) (w : World) : World :=
  {| env := e; clock := clock w; next_ref := next_ref w; todos := todos w;
     toasts := toasts w; timers := timers w; saved := saved w |}.
Definition set_todos (a : ArrayRef) (w : World) : World :=
  {| env := env w; clock := clock w; next_ref := next_ref w; todos := a;
     toasts := toasts w; timers := timers w; saved := saved w |}.
Definition set_toasts (ts : list Toast.ToastMessage) (w : World) : World :=
  {| env := env w; clock := clock w; next_ref := next_ref w; todos := todos w;
     toasts := ts; timers := timers w; saved := saved w |}.
Definition set_timers (tm : list (Z * string)) (w : World) : World :=
  {| env := env w; clock := clock w; next_ref := next_ref w; todos := todos w;
     toasts := toasts w; timers := tm; saved := saved w |}.
Definition set_clock (t : Z) (w : World) : World :=
  {| env := env w; clock := t; next_ref := next_ref w; todos := todos w;
     toasts := toasts w; timers := timers w; saved := saved w |}.
Definition log_save (arg : list JsValue) (w : World) : World :=
  {| env := env w; clock := clock w; next_ref := next_ref w; todos := todos w;
     toasts := toasts w; timers := timers w; saved := saved w ++ [arg] |}.

(** Allocation of a new array: [[...]], [.map], [.filter]. *)
Definition new_array (elems : list JsValue) (w : World) : ArrayRef * World :=
  ({| ref := next_ref w; contents := elems |},
   {| env := env w; clock := clock w; next_ref := S (next_ref w); todos := todos w;
      toasts := toasts w; timers := timers w; saved := saved w |}).

(** The updater the timer and [dismissToast] hand to [setToasts]:
    [prev => prev.filter(toast => toast.id !== id)] *)
Definition without_toast (id : string) (prev : list Toast.ToastMessage)
  : list Toast.ToastMessage :=
  List.filter (fun toast => negb (String.eqb (Toast.id toast) id)) prev.

(** [showToast(message, type = 'info', duration = 5000)] *)
Definition showToast (message : string) (type : option Toast.ToastType)
    (duration : option Z) (w : World) : World :=
  let type := default Toast.info type in
  let duration := default 5000 duration in
  let id := Number_toString (clock w) in
  let newToast :=
    {| Toast.id := id; Toast.message := message;
       Toast.type := type; Toast.duration := duration |} in
  let w := set_toasts (toasts w ++ [newToast]) w in
  set_timers (timers w ++ [(clock w + duration, id)]) w.

(** [dismissToast(id)] *)
Definition dismissToast (id : string) (w : World) : World :=
  set_toasts (without_toast id (toasts w)) w.

(** Time passes: the clock advances and the timers that have come due run
    their callback, oldest first. *)
Definition advance (dt : Z) (w : World) : World :=
  let t := clock w + dt in
  let due := List.filter (fun tm : Z * string => Z.leb tm.1 t) (timers w) in
  let pending := List.filter (fun tm : Z * string => negb (Z.leb tm.1 t)) (timers w) in
  let w := set_clock t (set_timers pending w) in
  fold_left (fun w tm => set_toasts (without_toast tm.2 (toasts w)) w) due w.

Section TodoProvider.
Context `{D : DateAPI} `{J : JSONAPI}.

(** The effect of [TodoProvider], [useEffect(..., [todos, showToast])]:
    [None] when an exception escapes into the component tree. *)
Definition persist (w : World) : option World :=
  match saveTodos (contents (todos w)) (env w) with
  | (e, Normal result) =>
      let w := log_save (contents (todos w)) (set_env e w) in
      match error result with
      | Some msg =>
          if negb (success result) && negb (String.eqb msg "")
          then Some (showToast msg (Some Toast.warning) None w)
          else Some w
      | None => Some w
      end
  | (_, Throw _) => None
  end.

(** Mounting the tree: the state initialiser hydrates from [loadTodos()],
    the first render commits, and the effect runs. *)
Definition mount (e : Env) (now : Z) : option World :=
  match loadTodos e with
  | (e', Normal loaded) =>
      persist {| env := e'; clock := now; next_ref := 1;
                 todos := {| ref := 0; contents := loaded |};
                 toasts := []; timers := []; saved := [] |}
  | (_, Throw _) => None
  end.

(** [setTodos(next)]: React bails out when the state is the identical
    array; otherwise it re-renders and, [todos] being a dependency that
    changed, runs the effect. [showToast] is stable ([useCallback] with no
    dependencies). *)
Definition setTodos (next : ArrayRef) (w : World) : option World :=
  if Object_is next (todos w) then Some w
  else persist (set_todos next w).

(** The new collection each operation hands to [setTodos]. *)
Definition newTodo (uuid title description : string) (now : Z) : JsValue :=
  JObj [("id", JStr uuid); ("title", JStr title); ("description", JStr description);
        ("completed", JBool false); ("createdAt", JDate (Some now))].

Definition added (uuid title description : string) (now : Z)
    (todos : list JsValue) : list JsValue :=
  todos ++ [newTodo uuid title description now].

Definition edited (id : string) (updates : list (string * JsValue))
    (todos : list JsValue) : list JsValue :=
  map (fun todo =>
         if strict_eq_str (get_prop todo "id") id
         then JObj (spread (own_props todo) updates)
         else todo) todos.

Definition toggled (id : string) (todos : list JsValue) : list JsValue :=
  map (fun todo =>
         if strict_eq_str (get_prop todo "id") id
         then JObj (obj_set "completed"
                      (JBool (negb (truthy (get_prop todo "completed"))))
                      (own_props todo))
         else todo) todos.

Definition deleted (id : string) (todos : list JsValue) : list JsValue :=
  List.filter (fun todo => negb (strict_eq_str (get_prop todo "id") id)) todos.

(** The four operations.  [uuid] is what [uuidv4()] returns for this call;
    [new Date()] reads the clock. *)
Definition addTodo (uuid : string) (title description : string) (w : World)
  : option World :=
  let (next, w) :=
    new_array (added uuid title description (clock w) (contents (todos w))) w in
  setTodos next w.

Definition editTodo (id : string) (updates : list (string * JsValue)) (w : World)
  : option World :=
  let (next, w) := new_array (edited id updates (contents (todos w))) w in
  setTodos next w.

Definition toggleTodoCompletion (id : string) (w : World) : option World :=
  let (next, w) := new_array (toggled id (contents (todos w))) w in
  setTodos next w.

Definition deleteTodo (id : string) (w : World) : option World :=
  let (next, w) := new_array (deleted id (contents (todos w))) w in
  setTodos next w.

End TodoProvider.

(* ===================================================================== *)
(** ** What is rendered: [ToastContainer] and [Toast] *)
(* ===================================================================== *)





(* ===================================================================== *)
(** ** A reference platform *)
(* ===================================================================== *)

(** An executable [JSON] and [Date] for running the code on concrete
    stores: JSON text with integer numbers and escapes below U+0100, and
    dates in the format [toISOString] emits. *)
Module Reference.

(** The double-quote character, code 34. *)
Abbreviation DQ := (Ascii false true false false false true false false).

Definition hex_digit (n : N) : ascii :=
  match n with
  | 0 => "0" | 1 => "1" | 2 => "2" | 3 => "3" | 4 => "4" | 5 => "5" | 6 => "6"
  | 7 => "7" | 8 => "8" | 9 => "9" | 10 => "a" | 11 => "b" | 12 => "c"
  | 13 => "d" | 14 => "e" | _ => "f"
  end%N%char.

(** [QuoteJSONString], without the surrounding quotes. *)
Fixpoint quote_body (s : string) : string :=
  match s with
  | EmptyString => EmptyString
  | String c rest =>
      let n := N_of_ascii c in
      let tail := quote_body rest in
      if (n =? 34)%N then String "\" (String DQ tail)
      else if (n =? 92)%N then String "\" (String "\" tail)
      else if (n =? 8)%N then String "\" (String "b" tail)
      else if (n =? 9)%N then String "\" (String "t" tail)
      else if (n =? 10)%N then String "\" (String "n" tail)
      else if (n =? 12)%N then String "\" (String "f" tail)
      else if (n =? 13)%N then String "\" (String "r" tail)
      else if (n <? 32)%N then
        String "\" (String "u" (String "0" (String "0"
          (String (hex_digit (n / 16)) (String (hex_digit (n mod 16)) tail)))))
      else String c tail
  end.

Definition quote (s : string) : string :=
  String DQ (quote_body s +:+ String DQ "").

(** The text of a value that is already in JSON form. *)
Fixpoint print (v : JsValue) : string :=
  match v with
  | JUndefined => "undefined"
  | JNull => "null"
  | JBool true => "true"
  | JBool false => "false"
  | JNum n => pretty n
  | JStr s => quote s
  | JDate _ => "null"
  | JArr elems => "[" +:+ String.concat "," (map print elems) +:+ "]"
  | JObj fields =>
      "{" +:+
      String.concat "," (map (fun kv => quote kv.1 +:+ ":" +:+ print kv.2) fields)
      +:+ "}"
  end.

Definition is_ws (c : ascii) : bool :=
  let n := N_of_ascii c in
  ((n =? 32) || (n =? 9) || (n =? 10) || (n =? 13))%N.

Fixpoint skip_ws (s : string) : string :=
  match s with
  | String c rest => if is_ws c then skip_ws rest else s
  | EmptyString => s
  end.

Definition digit_value (c : ascii) : option Z :=
  let n := N_of_ascii c in
  if ((48 <=? n) && (n <=? 57))%N then Some (Z.of_N n - 48) else None.

Definition hex_value (c : ascii) : option N :=
  let n := N_of_ascii c in
  if ((48 <=? n) && (n <=? 57))%N then Some (n - 48)%N
  else if ((97 <=? n) && (n <=? 102))%N then Some (n - 87)%N
  else if ((65 <=? n) && (n <=? 70))%N then Some (n - 55)%N
  else None.

(** The digits at the head of [s], accumulated onto [acc]. *)
Fixpoint read_digits (acc : Z) (s : string) : Z * string :=
  match s with
  | String c rest =>
      match digit_value c with
      | Some d => read_digits (10 * acc + d) rest
      | None => (acc, s)
      end
  | EmptyString => (acc, s)
  end.

(** An integer literal; a fraction or an exponent is outside the fragment. *)
Definition read_int (s : string) : option (Z * string) :=
  let '(neg, body) :=
    match s with
    | String "-" rest => (true, rest)
    | _ => (false, s)
    end in
  match body with
  | String c _ =>
      match digit_value c with
      | Some _ =>
          let '(n, rest) := read_digits 0 body in
          match rest with
          | String "." _ | String "e" _ | String "E" _ => None
          | _ => Some (if neg then - n else n, rest)
          end
      | None => None
      end
  | EmptyString => None
  end.

(** The characters of a string literal after its opening quote. *)
Fixpoint read_string (s : string) : option (string * string) :=
  match s with
  | EmptyString => None
  | String DQ rest => Some (EmptyString, rest)
  | String "\" (String e rest) =>
      let continue (c : ascii) (rest : string) :=
        match read_string rest with
        | Some (body, rest') => Some (String c body, rest')
        | None => None
        end in
      match e, rest with
      | DQ, _ => continue DQ rest
      | "\"%char, _ => continue "\"%char rest
      | "/"%char, _ => continue "/"%char rest
      | "b"%char, _ => continue (ascii_of_N 8) rest
      | "t"%char, _ => continue (ascii_of_N 9) rest
      | "n"%char, _ => continue (ascii_of_N 10) rest
      | "f"%char, _ => continue (ascii_of_N 12) rest
      | "r"%char, _ => continue (ascii_of_N 13) rest
      | "u"%char, String "0" (String "0" (String h (String l rest'))) =>
          match hex_value h, hex_value l with
          | Some a, Some b => continue (ascii_of_N (16 * a + b)) rest'
          | _, _ => None
          end
      | _, _ => None
      end
  | String c rest =>
      if (N_of_ascii c <? 32)%N then None
      else
        match read_string rest with
        | Some (body, rest') => Some (String c body, rest')
        | None => None
        end
  end.

(** Recursive descent over values, array elements and object members; the
    fuel bounds the nesting and the element count. *)
Fixpoint parse_value (fuel : nat) (s : string) : option (JsValue * string) :=
  match fuel with
  | O => None
  | S fuel =>
      match skip_ws s with
      | String "n" (String "u" (String "l" (String "l" rest))) => Some (JNull, rest)
      | String "t" (String "r" (String "u" (String "e" rest))) => Some (JBool true, rest)
      | String "f" (String "a" (String "l" (String "s" (String "e" rest)))) =>
          Some (JBool false, rest)
      | String DQ rest =>
          match read_string rest with
          | Some (str, rest') => Some (JStr str, rest')
          | None => None
          end
      | String "[" rest =>
          match skip_ws rest with
          | String "]" rest' => Some (JArr [], rest')
          | _ =>
              match parse_elems fuel rest with
              | Some (elems, rest') => Some (JArr elems, rest')
              | None => None
              end
          end
      | String "{" rest =>
          match skip_ws rest with
          | String "}" rest' => Some (JObj [], rest')
          | _ =>
              match parse_members fuel rest with
              | Some (members, rest') => Some (JObj (spread [] members), rest')
              | None => None
              end
          end
      | other =>
          match read_int other with
          | Some (n, rest) => Some (JNum n, rest)
          | None => None
          end
      end
  end
with parse_elems (fuel : nat) (s : string) : option (list JsValue * string) :=
  match fuel with
  | O => None
  | S fuel =>
      match parse_value fuel s with
      | Some (v, rest) =>
          match skip_ws rest with
          | String "]" rest' => Some ([v], rest')
          | String "," rest' =>
              match parse_elems fuel rest' with
              | Some (vs, rest'') => Some (v :: vs, rest'')
              | None => None
              end
          | _ => None
          end
      | None => None
      end
  end
with parse_members (fuel : nat) (s : string)
  : option (list (string * JsValue) * string) :=
  match fuel with
  | O => None
  | S fuel =>
      match skip_ws s with
      | String DQ rest =>
          match read_string rest with
          | Some (key, rest1) =>
              match skip_ws rest1 with
              | String ":" rest2 =>
                  match parse_value fuel rest2 with
                  | Some (v, rest3) =>
                      match skip_ws rest3 with
                      | String "}" rest' => Some ([(key, v)], rest')
                      | String "," rest' =>
                          match parse_members fuel rest' with
                          | Some (ms, rest'') => Some ((key, v) :: ms, rest'')
                          | None => None
                          end
                      | _ => None
                      end
                  | None => None
                  end
              | _ => None
              end
          | None => None
          end
      | _ => None
      end
  end.

Definition parse (text : string) : option JsValue :=
  match parse_value (S (String.length text)) text with
  | Some (v, rest) =>
      match skip_ws rest with
      | EmptyString => Some v
      | _ => None
      end
  | None => None
  end.

(** Civil date of a day number (days since 1970-01-01) and back, in the
    proleptic Gregorian calendar. *)
Definition civil_from_days (days : Z) : Z * Z * Z :=
  let z := days + 719468 in
  let era := z / 146097 in
  let doe := z - era * 146097 in
  let yoe := (doe - doe / 1460 + doe / 36524 - doe / 146096) / 365 in
  let doy := doe - (365 * yoe + yoe / 4 - yoe / 100) in
  let mp := (5 * doy + 2) / 153 in
  let d := doy - (153 * mp + 2) / 5 + 1 in
  let m := if mp <? 10 then mp + 3 else mp - 9 in
  let y := yoe + era * 400 in
  (if m <=? 2 then y + 1 else y, m, d).

Definition days_from_civil (y m d : Z) : Z :=
  let y := if m <=? 2 then y - 1 else y in
  let era := y / 400 in
  let yoe := y - era * 400 in
  let doy := (153 * (if 2 <? m then m - 3 else m + 9) + 2) / 5 + d - 1 in
  let doe := yoe * 365 + yoe / 4 - yoe / 100 + doy in
  era * 146097 + doe - 719468.

(** The character of a decimal digit. *)
Definition digit_char (k : Z) : ascii := ascii_of_N (Z.to_N (48 + k)).

(** [n] in decimal, left-padded with zeros to [width] digits. *)
Fixpoint pad (width : nat) (n : Z) : string :=
  match width with
  | O => ""
  | S w => pad w (n / 10) +:+ String (digit_char (n mod 10)) ""
  end.

(** [Date.prototype.toISOString] of a time value. *)
Definition toISOString (t : Z) : string :=
  let '(y, m, d) := civil_from_days (t / 86400000) in
  let ms := t mod 86400000 in
  let year :=
    if (0 <=? y) && (y <=? 9999) then pad 4 y
    else if y <? 0 then "-" +:+ pad 6 (- y)
    else "+" +:+ pad 6 y in
  year +:+ "-" +:+ pad 2 m +:+ "-" +:+ pad 2 d +:+ "T" +:+
  pad 2 (ms / 3600000) +:+ ":" +:+ pad 2 (ms / 60000 mod 60) +:+ ":" +:+
  pad 2 (ms / 1000 mod 60) +:+ "." +:+ pad 3 (ms mod 1000) +:+ "Z".

(** Exactly [width] digits at the head of [s]. *)
Fixpoint read_fixed (width : nat) (acc : Z) (s : string) : option (Z * string) :=
  match width with
  | O => Some (acc, s)
  | S w =>
      match s with
      | String c rest =>
          match digit_value c with
          | Some d => read_fixed w (10 * acc + d) rest
          | None => None
          end
      | EmptyString => None
      end
  end.

Definition expect (c : ascii) (s : string) : option string :=
  match s with
  | String c' rest => if Ascii.eqb c c' then Some rest else None
  | EmptyString => None
  end.

(** The fields after the sign of the year: the year in [width] digits,
    month, day, hours, minutes, seconds and milliseconds, for a date of the
    calendar. *)
Definition read_date_time (sign : Z) (width : nat) (s : string) : option Z :=
  '(y, s) ← read_fixed width 0 s;
  s ← expect "-" s;
  '(m, s) ← read_fixed 2 0 s;
  s ← expect "-" s;
  '(d, s) ← read_fixed 2 0 s;
  s ← expect "T" s;
  '(hh, s) ← read_fixed 2 0 s;
  s ← expect ":" s;
  '(mm, s) ← read_fixed 2 0 s;
  s ← expect ":" s;
  '(ss, s) ← read_fixed 2 0 s;
  s ← expect "." s;
  '(ms, s) ← read_fixed 3 0 s;
  s ← expect "Z" s;
  let y := sign * y in
  if String.eqb s "" && (1 <=? m) && (m <=? 12) && (1 <=? d) && (hh <=? 23) &&
     (mm <=? 59) && (ss <=? 59) &&
     bool_decide (civil_from_days (days_from_civil y m d) = (y, m, d))
  then Some (days_from_civil y m d * 86400000 + hh * 3600000 + mm * 60000 +
             ss * 1000 + ms)
  else None.

(** The time value of [new Date(s)] for [s] in the format above; the
    Invalid Date for every other string. *)
Definition parseISO (s : string) : option Z :=
  match s with
  | String "+" rest => read_date_time 1 6 rest
  | String "-" rest => read_date_time (-1) 6 rest
  | _ => read_date_time 1 4 s
  end.

(** *** Notions for the laws of this platform *)

(** A value printed as a string literal or as [true]/[false]. *)
Definition flat (v : JsValue) : bool :=
  match v with JStr _ | JBool _ => true | _ => false end.

(** An object of the wire: at least one field, no key twice, flat values. *)
Definition flat_record (v : JsValue) : Prop :=
  ∃ fields, v = JObj fields ∧ fields ≠ [] ∧ NoDup (map fst fields) ∧
            Forall (fun kv => flat kv.2 = true) fields.

(** The text of one member of an object. *)
Definition member_text (kv : string * JsValue) : string :=
  quote kv.1 +:+ ":" +:+ print kv.2.

(** Fuel that suffices for the elements of an array of records. *)
Fixpoint fuel_for (elems : list JsValue) : nat :=
  match elems with
  | [] => 0
  | x :: rest => Nat.max (length (own_props x) + 3) (S (fuel_for rest))
  end.

(** *** Dates *)

(** The calendar within one era of 146097 days. *)
Definition civil_of_doe (doe : Z) : Z * Z * Z :=
  let yoe := (doe - doe / 1460 + doe / 36524 - doe / 146096) / 365 in
  let doy := doe - (365 * yoe + yoe / 4 - yoe / 100) in
  let mp := (5 * doy + 2) / 153 in
  let d := doy - (153 * mp + 2) / 5 + 1 in
  let m := if mp <? 10 then mp + 3 else mp - 9 in
  (yoe, m, d).

(** The day of the era of a year of the era, a month and a day. *)
Definition doe_of_civil (yoe m d : Z) : Z :=
  let doy := (153 * (if 2 <? m then m - 3 else m + 9) + 2) / 5 + d - 1 in
  yoe * 365 + yoe / 4 - yoe / 100 + doy.

(** The day [doe] of an era falls on a date of the calendar, and that date
    falls on [doe]. *)
Definition era_day_ok (doe : Z) : bool :=
  let '(yoe, m, d) := civil_of_doe doe in
  (0 <=? yoe) && (yoe <? 400) && (1 <=? m) && (m <=? 12) &&
  (1 <=? d) && (d <=? 31) && (doe_of_civil yoe m d =? doe).

(** [era_day_ok] on the [n] days from [start] on. *)
Fixpoint all_days_ok (n : nat) (start : Z) : bool :=
  match n with
  | O => true
  | S n => era_day_ok start && all_days_ok n (start + 1)
  end.

(** The time values of ECMAScript: 100 000 000 days either side of the
    epoch. *)
Definition time_value (t : Z) : Prop :=
  -8640000000000000 ≤ t ≤ 8640000000000000.

#[export] Instance dates : DateAPI := {
  Date_parse := parseISO;
  Date_toISOString := toISOString
}.

#[export] Instance json : JSONAPI := {
  JSON_parse := parse;
  JSON_stringify v := Normal (print (toJSON v))
}.

End Reference.

(* ===================================================================== *)
(** ** The vocabulary of the specification *)
(* ===================================================================== *)

(** The names of the five fields of a [Todo]. *)
Definition TODO_FIELDS : list string :=
  ["id"; "title"; "description"; "completed"; "createdAt"].

(** The shape the code checks: a plain object on which the five fields are
    present with their types; further fields are not looked at. *)
Definition todo_shaped (item : JsValue) : Prop :=
  ∃ fields, item = JObj fields ∧
    (∃ s, obj_get "id" fields = JStr s) ∧
    (∃ s, obj_get "title" fields = JStr s) ∧
    (∃ s, obj_get "description" fields = JStr s) ∧
    (∃ b, obj_get "completed" fields = JBool b) ∧
    ((∃ tv, obj_get "createdAt" fields = JDate tv) ∨
     (∃ s, obj_get "createdAt" fields = JStr s)).

(** The shape as the specification words it: the record contains exactly
    the five fields. *)
Definition spec_exact_todo (item : JsValue) : Prop :=
  todo_shaped item ∧
  ∀ k, obj_has k (own_props item) = true → k ∈ TODO_FIELDS.

Definition spec_isValidTodos (x : JsValue) : Prop :=
  ∃ elems, x = JArr elems ∧ Forall spec_exact_todo elems.

(** Appends console entries. *)
Definition logged (entries : list LogEntry) (e : Env) : Env :=
  {| sessionStorage := sessionStorage e; console := console e ++ entries |}.

(** What the store signals when it cannot hold more data: an [Error] named
    [QuotaExceededError]. *)
Definition quota_exceeded (err : JsError) : Prop :=
  err_instanceof_Error err = true ∧ err_name err = "QuotaExceededError".

(** The type of a field of a [Todo] that denotes a point in time:
    [createdAt] is a date that is not the Invalid Date, or a string. *)
Definition field_typed (k : string) (v : JsValue) : bool :=
  match v with
  | JStr _ =>
      String.eqb k "id" || String.eqb k "title" || String.eqb k "description" ||
      String.eqb k "createdAt"
  | JBool _ => String.eqb k "completed"
  | JDate (Some _) => String.eqb k "createdAt"
  | _ => false
  end.

(** A valid [Todo]: an object with the five fields, each once and each of
    its type, and no other field. *)
Definition valid_todo (item : JsValue) : Prop :=
  ∃ fields,
    item = JObj fields ∧
    NoDup (map fst fields) ∧
    Forall (fun k => obj_has k fields = true) TODO_FIELDS ∧
    Forall (fun kv => field_typed kv.1 kv.2 = true) fields.

(** The dates held in [createdAt] fields of a collection. *)
Definition created_instant (todos : list JsValue) (t : Z) : Prop :=
  ∃ todo, todo ∈ todos ∧ get_prop todo "createdAt" = JDate (Some t).

(** The public operations, as the UI shell issues them. *)
Inductive Op : Type :=
| AddTodo (uuid title description : string)
| EditTodo (id : string) (updates : list (string * JsValue))
| ToggleTodoCompletion (id : string)
| DeleteTodo (id : string).

(** The collection an operation hands to [setTodos]. *)
Definition next_contents (op : Op) (now : Z) (todos : list JsValue) : list JsValue :=
  match op with
  | AddTodo uuid title description => added uuid title description now todos
  | EditTodo id updates => edited id updates todos
  | ToggleTodoCompletion id => toggled id todos
  | DeleteTodo id => deleted id todos
  end.

(** The [id] of each record, in collection order. *)
Definition ids (todos : list JsValue) : list JsValue :=
  map (fun todo => get_prop todo "id") todos.

(** The state array was allocated before the next allocation. *)
Definition heap_ok (w : World) : Prop := (ref (todos w) < next_ref w)%nat.

Section Vocabulary.
Context `{D : DateAPI} `{J : JSONAPI}.

(** What the [try] block of [saveTodos] comes to: the text it wrote, or
    the exception raised by the serialisation or by the store. *)
Definition write_attempt (todos : list JsValue) (e : Env) : Completion string :=
  match JSON_stringify (JArr todos) with
  | Normal text =>
      match setItem_fault (sessionStorage e) with
      | None => Normal text
      | Some err => Throw err
      end
  | Throw err => Throw err
  end.

Definition wire_field (kv : string * JsValue) : string * JsValue :=
  (kv.1, toJSON kv.2).

(** The normalisation of [createdAt] the specification describes: a
    string becomes the date it denotes, a date stays the date it is, every
    other field is kept. *)
Definition normalise_field (kv : string * JsValue) : string * JsValue :=
  match kv.2 with
  | JStr s => if String.eqb kv.1 "createdAt" then (kv.1, JDate (Date_parse s)) else kv
  | _ => kv
  end.

Definition normalise_createdAt (todo : JsValue) : JsValue :=
  JObj (map normalise_field (own_props todo)).

Definition run (op : Op) (w : World) : option World :=
  match op with
  | AddTodo uuid title description => addTodo uuid title description w
  | EditTodo id updates => editTodo id updates w
  | ToggleTodoCompletion id => toggleTodoCompletion id w
  | DeleteTodo id => deleteTodo id w
  end.

(** Operations issued one after the other, each from the render that
    followed the one before. *)
Fixpoint run_all (ops : list Op) (w : World) : option World :=
  match ops with
  | [] => Some w
  | op :: rest =>
      match run op w with
      | Some w' => run_all rest w'
      | None => None
      end
  end.

(** The collection after a sequence of operations issued at time [now]. *)
Definition contents_after (ops : list Op) (now : Z) (todos : list JsValue)
  : list JsValue :=
  fold_left (fun l op => next_contents op now l) ops todos.

(** One operation of an event handler: it reads the [todos] of [render],
    the render the handler was created in, allocates the new collection and
    hands it to [setTodos], which queues it. *)
Definition enqueue (render : World) (acc : option ArrayRef * World) (op : Op)
  : option ArrayRef * World :=
  let (next, w') :=
    new_array (next_contents op (clock render) (contents (todos render))) acc.2 in
  (Some next, w').

(** Operations issued by one event handler.  The four functions close over
    the [todos] of the render they were created in and hand [setTodos] a
    value, not an updater; React queues the states, keeps the last one and
    renders once, after which the effect runs. *)
Definition run_batch (ops : list Op) (w : World) : option World :=
  let '(last, w1) := fold_left (enqueue w) ops (None, w) in
  match last with
  | Some next => setTodos next w1
  | None => Some w1
  end.

End Vocabulary.

(* ===================================================================== *)
(** ** Sample stores and records *)
(* ===================================================================== *)

#[local] Existing Instances Reference.dates Reference.json.

(** A healthy store holding [stored], with an empty console. *)
Definition healthy (stored : gmap string string) : Env :=
  {| sessionStorage :=
       {| items := stored; getItem_fault := None;
          setItem_fault := None; removeItem_fault := None |};
     console := [] |}.

(** A store that refuses every removal. *)
Definition sticky (stored : gmap string string) (err : JsError) : Env :=
  {| sessionStorage :=
       {| items := stored; getItem_fault := None;
          setItem_fault := None; removeItem_fault := Some err |};
     console := [] |}.

(** The record the test-suite saves, and one whose [createdAt] is still
    the string read from the store. *)
Definition sample_todo : JsValue :=
  JObj [("id", JStr "1"); ("title", JStr "Test Todo");
        ("description", JStr "Test Description"); ("completed", JBool false);
        ("createdAt", JDate (Some 1672531200000))].

Definition sample_wire_todo : JsValue :=
  JObj [("id", JStr "2"); ("title", JStr "Existing Todo");
        ("description", JStr "From storage"); ("completed", JBool true);
        ("createdAt", JStr "2023-01-01T00:00:00.000Z")].

(** A store that refuses every write, and the two errors the test-suite
    makes [setItem] throw. *)
Definition refusing (err : JsError) : Env :=
  {| sessionStorage :=
       {| items := ∅; getItem_fault := None;
          setItem_fault := Some err; removeItem_fault := None |};
     console := [] |}.

Definition quotaError : JsError :=
  {| err_instanceof_Error := true; err_name := "QuotaExceededError";
     err_message := "QuotaExceededError" |}.

Definition genericError : JsError :=
  {| err_instanceof_Error := true; err_name := "Error";
     err_message := "Some other error" |}.

(** The text [JSON.stringify] writes for the two records. *)
Definition sample_text : string :=
  Eval vm_compute in Reference.print (toJSON (JArr [sample_todo; sample_wire_todo])).

(** The application just after mounting on a store that holds one record. *)
Definition mounted_sample : World :=
  {| env := healthy {[ STORAGE_KEY := Reference.print (toJSON (JArr [sample_todo])) ]};
     clock := 0; next_ref := 1;
     todos := {| ref := 0; contents := [sample_todo] |};
     toasts := []; timers := []; saved := [[sample_todo]] |}.

(* ===================================================================== *)
(** ** Notions for the further properties *)
(* ===================================================================== *)

(** A field of a [Partial<Todo>] of its type: a value for one of the five
    fields has the type the shape predicate asks for; other fields are
    free. *)
Definition update_typed (kv : string * JsValue) : bool :=
  if String.eqb kv.1 "id" || String.eqb kv.1 "title" || String.eqb kv.1 "description"
  then String.eqb (typeof kv.2) "string"
  else if String.eqb kv.1 "completed" then String.eqb (typeof kv.2) "boolean"
  else if String.eqb kv.1 "createdAt"
       then instanceof_Date kv.2 || String.eqb (typeof kv.2) "string"
  else true.

(** The operations whose arguments are of their declared types. *)
Definition op_typed (op : Op) : Prop :=
  match op with
  | EditTodo _ updates => Forall (fun kv => update_typed kv = true) updates
  | _ => True
  end.

(** The store answers every call. *)
Definition no_faults (e : Env) : Prop :=
  getItem_fault (sessionStorage e) = None ∧
  setItem_fault (sessionStorage e) = None ∧
  removeItem_fault (sessionStorage e) = None.

(** A valid todo as [addTodo] makes them: [createdAt] is a date, and its
    time value is one of ECMAScript's. *)
Definition dated_todo (todo : JsValue) : Prop :=
  valid_todo todo ∧
  ∃ t, get_prop todo "createdAt" = JDate (Some t) ∧ Reference.time_value t.

(** Operations as the UI issues them: an edit gives fields of a todo other
    than [createdAt] values of their type; a todo is added at a time
    value. *)
Definition op_plain (now : Z) (op : Op) : Prop :=
  match op with
  | AddTodo _ _ _ => Reference.time_value now
  | EditTodo _ updates =>
      Forall (fun kv => field_typed kv.1 kv.2 = true ∧ kv.1 ≠ "createdAt") updates
  | ToggleTodoCompletion _ | DeleteTodo _ => True
  end.

(** The store holds the text of a collection. *)
Definition store_holds (e : Env) (todos : list JsValue) : Prop :=
  items (sessionStorage e) !! STORAGE_KEY =
    Some (Reference.print (toJSON (JArr todos))).

(** The fields of a dated todo. *)
Definition dated_fields (fields : list (string * JsValue)) : Prop :=
  NoDup (map fst fields) ∧
  Forall (fun k => obj_has k fields = true) TODO_FIELDS ∧
  Forall (fun kv => field_typed kv.1 kv.2 = true) fields ∧
  ∃ t, obj_get "createdAt" fields = JDate (Some t) ∧ Reference.time_value t.

(** The store holds the collection in memory, nothing has been logged or
    shown: the invariant of a session on a store that answers. *)
Definition in_step (w : World) : Prop :=
  no_faults (env w) ∧ heap_ok w ∧
  Forall dated_todo (contents (todos w)) ∧
  store_holds (env w) (contents (todos w)) ∧
  toasts w = [] ∧ console (env w) = [].

(** The world in which the effect runs after an operation. *)
Definition rendered (op : Op) (w : World) : World :=
  let next := {| ref := next_ref w;
                 contents := next_contents op (clock w) (contents (todos w)) |} in
  set_todos next (new_array (contents next) w).2.

(** A store that refuses every read. *)
Definition unreadable (stored : gmap string string) (err : JsError) : Env :=
  {| sessionStorage :=
       {| items := stored; getItem_fault := Some err;
          setItem_fault := None; removeItem_fault := None |};
     console := [] |}.

(** The mounted application when the store has started refusing writes. *)
Definition refused_sample : World := set_env (refusing quotaError) mounted_sample.

(** Unfolds the monad and the primitives of the store. *)
Ltac eff_unfold :=
  unfold try_catch, bind, ret, throw, getItem, setItem, removeItem,
    console_warn, JSON_parse_eff, JSON_stringify_eff in *.

(* ===================================================================== *)
(** * Properties *)
(* ===================================================================== *)

(** ** The shape predicate *)

Lemma typeof_string_iff v :
  String.eqb (typeof v) "string" = true ↔ ∃ s, v = JStr s.
Proof.
  destruct v; simpl; split; try discriminate; eauto;
    intros [s' Hs]; discriminate.
Qed.

Lemma typeof_boolean_iff v :
  String.eqb (typeof v) "boolean" = true ↔ ∃ b, v = JBool b.
Proof.
  destruct v; simpl; split; try discriminate; eauto;
    intros [b' Hb]; discriminate.
Qed.

Lemma instanceof_Date_iff v :
  instanceof_Date v = true ↔ ∃ tv, v = JDate tv.
Proof.
  destruct v; simpl; split; try discriminate; eauto;
    intros [tv' Htv]; discriminate.
Qed.

Lemma isValidTodo_shaped item :
  isValidTodo item = true ↔ todo_shaped item.
Proof.
  unfold isValidTodo, todo_shaped, get_prop.
  rewrite !andb_true_iff, orb_true_iff, !typeof_string_iff,
    typeof_boolean_iff, instanceof_Date_iff.
  split.
  - intros [[[[[[Hobj Hnn] Hid] Hti] Hde] Hco] Hcr].
    destruct item; simpl in *; try discriminate;
      try (destruct Hid as [s Hs]; discriminate).
    exists fields. tauto.
  - intros (fields & -> & Hid & Hti & Hde & Hco & Hcr). simpl. tauto.
Qed.

Lemma isValidTodos_array x :
  isValidTodos x = true ↔ ∃ elems, x = JArr elems ∧ forallb isValidTodo elems = true.
Proof.
  unfold isValidTodos. destruct x; simpl; split; try discriminate; eauto;
    try (intros (l & Hl & _); discriminate).
  intros (l & Hl & Hall). by inversion Hl; subst.
Qed.

Lemma forallb_isValidTodo elems :
  forallb isValidTodo elems = true ↔ Forall todo_shaped elems.
Proof.
  induction elems as [|x l IH]; simpl.
  - split; [constructor | done].
  - rewrite andb_true_iff, Forall_cons, IH, isValidTodo_shaped. tauto.
Qed.

Lemma obj_get_app_defined k fields more :
  obj_get k fields ≠ JUndefined →
  obj_get k (fields ++ more) = obj_get k fields.
Proof.
  induction fields as [|[k' v'] rest IH]; simpl; [done|].
  destruct (String.eqb k' k); auto.
Qed.

(** C5 as the specification states it, refuted: a record that carries a
    sixth field next to the five well-typed ones is accepted by the code,
    although it does not consist of exactly the five fields. *)
Lemma C5_extra_field_accepted :
  let x := JArr [JObj [("id", JStr "1"); ("title", JStr "t");
                       ("description", JStr ""); ("completed", JBool false);
                       ("createdAt", JStr "2023-01-01T00:00:00.000Z");
                       ("priority", JNum 3)]] in
  isValidTodos x = true ∧ ¬ spec_isValidTodos x.
Proof.
  split; [reflexivity|].
  intros (elems & Hx & Hall). inversion Hx; subst elems; clear Hx.
  apply Forall_cons_1 in Hall as [[_ Hkeys] _].
  specialize (Hkeys "priority" eq_refl).
  unfold TODO_FIELDS in Hkeys.
  repeat (apply elem_of_cons in Hkeys as [Hk|Hkeys]; [discriminate|]).
  by apply elem_of_nil in Hkeys.
Qed.

(** C5, amended: [isValidTodos x] holds exactly when [x] is an array whose
    every element is a non-null object on which [id], [title] and
    [description] are strings, [completed] is a boolean and [createdAt] is a
    date or a string, whatever other fields it carries.  The empty array is
    valid, one malformed element invalidates the whole array, and a further
    field on a well-shaped record does not. *)
Theorem C5_isValidTodos_shape :
  (∀ x, isValidTodos x = true ↔ ∃ elems, x = JArr elems ∧ Forall todo_shaped elems) ∧
  isValidTodos (JArr []) = true ∧
  (∀ before bad after,
      ¬ todo_shaped bad → isValidTodos (JArr (before ++ bad :: after)) = false) ∧
  (∀ fields k v,
      todo_shaped (JObj fields) → obj_has k fields = false →
      todo_shaped (JObj (fields ++ [(k, v)]))).
Proof.
  split; [|split; [reflexivity|split]].
  - intros x. rewrite isValidTodos_array.
    split; intros (elems & -> & H); exists elems; split; auto;
      by apply forallb_isValidTodo.
  - intros before bad after Hbad.
    destruct (isValidTodos (JArr (before ++ bad :: after))) eqn:E; [|done].
    apply isValidTodos_array in E as (elems & Heq & Hall).
    inversion Heq; subst elems; clear Heq.
    apply forallb_isValidTodo, Forall_app in Hall as [_ Hall].
    apply Forall_cons_1 in Hall as [Hshape _]. contradiction.
  - intros fields k v (fs & Heq & Hid & Hti & Hde & Hco & Hcr) _.
    inversion Heq; subst fs; clear Heq.
    exists (fields ++ [(k, v)]). split; [done|].
    assert (Hkeep : ∀ name, obj_get name fields ≠ JUndefined →
              obj_get name (fields ++ [(k, v)]) = obj_get name fields)
      by (intros; by apply obj_get_app_defined).
    rewrite !Hkeep; [tauto| | | | |].
    + destruct Hcr as [[tv ->]|[s ->]]; done.
    + destruct Hco as [b ->]; done.
    + destruct Hde as [s ->]; done.
    + destruct Hti as [s ->]; done.
    + destruct Hid as [s ->]; done.
Qed.

(** The amended shape at work: the valid record of the test-suite, the same
    record with a field missing, and a sixth field added. *)
Lemma C5_isValidTodos_shape_witness :
  isValidTodos (JArr [JObj [("id", JStr "1"); ("title", JStr "Test Todo");
                            ("description", JStr "Test Description");
                            ("completed", JBool false);
                            ("createdAt", JDate (Some 1672531200000))];
                      JObj [("id", JStr "2"); ("title", JStr "Invalid Todo")]])
    = false.
Proof.
  apply (proj1 (proj2 (proj2 C5_isValidTodos_shape))
           [JObj [("id", JStr "1"); ("title", JStr "Test Todo");
                  ("description", JStr "Test Description");
                  ("completed", JBool false);
                  ("createdAt", JDate (Some 1672531200000))]]
           (JObj [("id", JStr "2"); ("title", JStr "Invalid Todo")]) []).
  intros (fields & Heq & _ & _ & [s Hs] & _).
  inversion Heq; subst fields. discriminate.
Defined.

(** ** The storage adapter *)

Section AdapterProperties.
Context `{D : DateAPI} `{J : JSONAPI}.

Lemma loadTodos_absent e :
  getItem_fault (sessionStorage e) = None →
  items (sessionStorage e) !! STORAGE_KEY = None →
  loadTodos e = (e, Normal []).
Proof.
  intros Hget Hkey. unfold loadTodos. eff_unfold. by rewrite Hget, Hkey.
Qed.

Lemma loadTodos_empty_string e :
  getItem_fault (sessionStorage e) = None →
  items (sessionStorage e) !! STORAGE_KEY = Some "" →
  loadTodos e = (e, Normal []).
Proof.
  intros Hget Hkey. unfold loadTodos. eff_unfold. by rewrite Hget, Hkey.
Qed.

Lemma loadTodos_unparseable e raw :
  getItem_fault (sessionStorage e) = None →
  items (sessionStorage e) !! STORAGE_KEY = Some raw →
  raw ≠ "" →
  JSON_parse raw = None →
  loadTodos e =
    (let e1 := logged [Warn WARN_LOAD_FAILED
                         (Some (SyntaxError "Unexpected token in JSON"))] e in
     match removeItem_fault (sessionStorage e) with
     | None => with_items (delete STORAGE_KEY) e1
     | Some _ => e1
     end, Normal []).
Proof.
  intros Hget Hkey Hne Hparse. unfold loadTodos. eff_unfold.
  rewrite Hget, Hkey. apply String.eqb_neq in Hne. rewrite Hne, Hparse. simpl.
  by destruct (removeItem_fault (sessionStorage e)).
Qed.

Lemma loadTodos_misshapen e raw v :
  getItem_fault (sessionStorage e) = None →
  items (sessionStorage e) !! STORAGE_KEY = Some raw →
  raw ≠ "" →
  JSON_parse raw = Some v →
  isValidTodos v = false →
  loadTodos e =
    (match removeItem_fault (sessionStorage e) with
     | None => with_items (delete STORAGE_KEY) (logged [Warn WARN_INVALID None] e)
     | Some err =>
         logged [Warn WARN_INVALID None; Warn WARN_LOAD_FAILED (Some err)] e
     end, Normal []).
Proof.
  intros Hget Hkey Hne Hparse Hshape. unfold loadTodos. eff_unfold.
  rewrite Hget, Hkey. apply String.eqb_neq in Hne. rewrite Hne, Hparse. simpl.
  rewrite Hshape. simpl.
  destruct (removeItem_fault (sessionStorage e)) as [err|] eqn:Hrm; simpl.
  - rewrite Hrm. unfold logged. simpl. by rewrite <- app_assoc.
  - done.
Qed.

Lemma loadTodos_valid e raw v :
  getItem_fault (sessionStorage e) = None →
  items (sessionStorage e) !! STORAGE_KEY = Some raw →
  raw ≠ "" →
  JSON_parse raw = Some v →
  isValidTodos v = true →
  loadTodos e = (e, Normal (map reviveTodo (array_elems v))).
Proof.
  intros Hget Hkey Hne Hparse Hshape. unfold loadTodos. eff_unfold.
  rewrite Hget, Hkey. apply String.eqb_neq in Hne.
  rewrite Hne, Hparse. simpl. by rewrite Hshape.
Qed.

Lemma loadTodos_getItem_fault e err :
  getItem_fault (sessionStorage e) = Some err →
  loadTodos e =
    (let e1 := logged [Warn WARN_LOAD_FAILED (Some err)] e in
     match removeItem_fault (sessionStorage e) with
     | None => with_items (delete STORAGE_KEY) e1
     | Some _ => e1
     end, Normal []).
Proof.
  intros Hget. unfold loadTodos. eff_unfold. rewrite Hget. simpl.
  by destruct (removeItem_fault (sessionStorage e)).
Qed.

(** [loadTodos] never lets an exception out, whatever the store does. *)
Lemma loadTodos_total e :
  ∃ e' loaded, loadTodos e = (e', Normal loaded).
Proof.
  destruct (getItem_fault (sessionStorage e)) as [err|] eqn:Hget.
  { erewrite loadTodos_getItem_fault by done. eauto. }
  destruct (items (sessionStorage e) !! STORAGE_KEY) as [raw|] eqn:Hkey.
  2: { rewrite loadTodos_absent by done. eauto. }
  destruct (decide (raw = "")) as [->|Hne].
  { rewrite loadTodos_empty_string by done. eauto. }
  destruct (JSON_parse raw) as [v|] eqn:Hparse.
  2: { erewrite loadTodos_unparseable by done. eauto. }
  destruct (isValidTodos v) eqn:Hshape.
  - erewrite loadTodos_valid by done. eauto.
  - erewrite loadTodos_misshapen by done. eauto.
Qed.

Lemma saveTodos_ok todos e text :
  write_attempt todos e = Normal text →
  saveTodos todos e =
    (with_items (insert STORAGE_KEY text) e,
     Normal {| success := true; error := None |}).
Proof.
  unfold write_attempt, saveTodos. eff_unfold.
  destruct (JSON_stringify (JArr todos)) as [text'|]; [|done].
  destruct (setItem_fault (sessionStorage e)); [done|].
  by intros [= ->].
Qed.

Lemma quota_exceeded_test err :
  err_instanceof_Error err && String.eqb (err_name err) "QuotaExceededError" = true
  ↔ quota_exceeded err.
Proof.
  unfold quota_exceeded. by rewrite andb_true_iff, String.eqb_eq.
Qed.

Lemma saveTodos_quota todos e err :
  write_attempt todos e = Throw err →
  quota_exceeded err →
  saveTodos todos e =
    (logged [Warn WARN_QUOTA None] e,
     Normal {| success := false; error := Some MSG_QUOTA |}).
Proof.
  intros Hw Hq%quota_exceeded_test. revert Hw.
  unfold write_attempt, saveTodos. eff_unfold.
  destruct (JSON_stringify (JArr todos)) as [text'|err'].
  - destruct (setItem_fault (sessionStorage e)); [|done].
    intros [= ->]. by rewrite Hq.
  - intros [= ->]. by rewrite Hq.
Qed.

Lemma saveTodos_other_failure todos e err :
  write_attempt todos e = Throw err →
  ¬ quota_exceeded err →
  saveTodos todos e =
    (logged [Warn WARN_SAVE_FAILED (Some err)] e,
     Normal {| success := false; error := Some MSG_SAVE_FAILED |}).
Proof.
  intros Hw Hq.
  assert (err_instanceof_Error err &&
          String.eqb (err_name err) "QuotaExceededError" = false) as Hqb.
  { destruct (_ && _) eqn:E; [|done]. by apply quota_exceeded_test in E. }
  revert Hw. unfold write_attempt, saveTodos. eff_unfold.
  destruct (JSON_stringify (JArr todos)) as [text'|err'].
  - destruct (setItem_fault (sessionStorage e)); [|done].
    intros [= ->]. by rewrite Hqb.
  - intros [= ->]. by rewrite Hqb.
Qed.

Lemma quota_exceeded_dec err : quota_exceeded err ∨ ¬ quota_exceeded err.
Proof.
  destruct (err_instanceof_Error err &&
            String.eqb (err_name err) "QuotaExceededError") eqn:E.
  - left. by apply quota_exceeded_test.
  - right. intros Hq%quota_exceeded_test. congruence.
Qed.

Lemma saveTodos_total todos e :
  ∃ e' result, saveTodos todos e = (e', Normal result).
Proof.
  destruct (write_attempt todos e) as [text|err] eqn:Hw.
  - erewrite saveTodos_ok by done. eauto.
  - destruct (quota_exceeded_dec err).
    + erewrite saveTodos_quota by done. eauto.
    + erewrite saveTodos_other_failure by done. eauto.
Qed.

(** C2: [saveTodos] always returns a result and never throws.  When the
    serialised collection is written, the result is [{success: true}] and
    the key holds the text; when the write fails with a quota error the
    result is [{success: false}] with the quota message; on any other
    failure, of the store or of the serialisation, it is
    [{success: false}] with the generic message.  On failure the store is
    left as it was. *)
Theorem C2_saveTodos_never_throws (todos : list JsValue) (e : Env) :
  ∃ e' result,
    saveTodos todos e = (e', Normal result) ∧
    match write_attempt todos e with
    | Normal text =>
        result = {| success := true; error := None |} ∧
        items (sessionStorage e') !! STORAGE_KEY = Some text
    | Throw err =>
        items (sessionStorage e') = items (sessionStorage e) ∧
        ((quota_exceeded err ∧
          result = {| success := false; error := Some MSG_QUOTA |}) ∨
         (¬ quota_exceeded err ∧
          result = {| success := false; error := Some MSG_SAVE_FAILED |}))
    end.
Proof.
  destruct (write_attempt todos e) as [text|err] eqn:Hw.
  - erewrite saveTodos_ok by done. do 2 eexists. split; [done|].
    split; [done|]. simpl. apply lookup_insert_eq.
  - destruct (quota_exceeded_dec err) as [Hq|Hq].
    + erewrite saveTodos_quota by done. do 2 eexists. split; [done|]. auto.
    + erewrite saveTodos_other_failure by done.
      do 2 eexists. split; [done|]. auto.
Qed.

(** C3, amended: for every non-empty stored text that fails to parse, and
    for every stored text whose parsed value fails the shape predicate,
    [loadTodos] logs a warning (a different one in each case), removes the
    stored key, and returns the empty array.  When the store refuses the
    removal, the empty array is returned all the same and the key stays:
    after a parse failure the refusal is swallowed without a trace; after a
    shape failure it is caught by the handler, which logs it as a failed
    load and tries the removal once more, ignoring the second refusal. *)
Theorem C3_corrupt_data_cleared (e : Env) (raw : string) :
  getItem_fault (sessionStorage e) = None →
  items (sessionStorage e) !! STORAGE_KEY = Some raw →
  raw ≠ "" →
  (JSON_parse raw = None ∨
   ∃ v, JSON_parse raw = Some v ∧ isValidTodos v = false) →
  ∃ e',
    loadTodos e = (e', Normal []) ∧
    items (sessionStorage e') !! STORAGE_KEY =
      match removeItem_fault (sessionStorage e) with
      | None => None
      | Some _ => Some raw
      end ∧
    console e' =
      console e ++
      match JSON_parse raw, removeItem_fault (sessionStorage e) with
      | None, _ =>
          [Warn WARN_LOAD_FAILED (Some (SyntaxError "Unexpected token in JSON"))]
      | Some _, None => [Warn WARN_INVALID None]
      | Some _, Some err => [Warn WARN_INVALID None; Warn WARN_LOAD_FAILED (Some err)]
      end.
Proof.
  intros Hget Hkey Hne [Hparse|(v & Hparse & Hshape)].
  - erewrite loadTodos_unparseable by done. rewrite Hparse.
    eexists. split; [done|].
    destruct (removeItem_fault (sessionStorage e)); simpl;
      (split; [|done]); [done | apply lookup_delete_eq].
  - erewrite loadTodos_misshapen by done. rewrite Hparse.
    eexists. split; [done|].
    destruct (removeItem_fault (sessionStorage e)); simpl;
      (split; [|done]); [done | apply lookup_delete_eq].
Qed.

(** C10: a stored empty string is handled like an absent key:
    [loadTodos] returns the empty array and leaves console and store as
    they were, so nothing is logged and the key is not removed.  The
    stored items change only when a non-empty text fails to parse or
    parses to a value of the wrong shape. *)
Theorem C10_empty_string_like_absent (e : Env) :
  getItem_fault (sessionStorage e) = None →
  ((items (sessionStorage e) !! STORAGE_KEY = Some "" ∨
    items (sessionStorage e) !! STORAGE_KEY = None) →
   loadTodos e = (e, Normal [])) ∧
  (∀ e' r,
      loadTodos e = (e', r) →
      items (sessionStorage e') ≠ items (sessionStorage e) →
      ∃ raw,
        items (sessionStorage e) !! STORAGE_KEY = Some raw ∧ raw ≠ "" ∧
        (JSON_parse raw = None ∨
         ∃ v, JSON_parse raw = Some v ∧ isValidTodos v = false)).
Proof.
  intros Hget. split.
  - intros [Hkey|Hkey].
    + by apply loadTodos_empty_string.
    + by apply loadTodos_absent.
  - intros e' r Hload Hchanged.
    destruct (items (sessionStorage e) !! STORAGE_KEY) as [raw|] eqn:Hkey.
    2: { rewrite loadTodos_absent in Hload by done. by inversion Hload; subst. }
    destruct (decide (raw = "")) as [->|Hne].
    { rewrite loadTodos_empty_string in Hload by done. by inversion Hload; subst. }
    exists raw. split; [done|]. split; [done|].
    destruct (JSON_parse raw) as [v|] eqn:Hparse; [|by left].
    right. exists v. split; [done|].
    destruct (isValidTodos v) eqn:Hshape; [|done].
    erewrite loadTodos_valid in Hload by done. by inversion Hload; subst.
Qed.

End AdapterProperties.

(** ** Saving and loading again *)

Section RoundTrip.
Context `{D : DateAPI} `{J : JSONAPI}.

Lemma toJSON_typed_fields fields :
  Forall (fun kv => field_typed kv.1 kv.2 = true) fields →
  toJSON (JObj fields) = JObj (map wire_field fields).
Proof.
  intros Hty. simpl. f_equal.
  induction Hty as [|[k v] rest Hkv _ IH]; [done|].
  rewrite IH. destruct v; try done.
Qed.

Lemma obj_get_wire k fields :
  obj_get k (map wire_field fields) = toJSON (obj_get k fields).
Proof.
  induction fields as [|[k' v] rest IH]; simpl; [done|].
  by destruct (String.eqb k' k).
Qed.

Lemma obj_get_typed k fields :
  obj_has k fields = true →
  Forall (fun kv => field_typed kv.1 kv.2 = true) fields →
  field_typed k (obj_get k fields) = true.
Proof.
  intros Hhas Hty. induction Hty as [|[k' v] rest Hkv _ IH]; [done|].
  simpl in *. destruct (String.eqb k' k) eqn:E.
  - apply String.eqb_eq in E. by subst.
  - auto.
Qed.

Lemma valid_todo_wire_shaped item :
  valid_todo item → isValidTodo (toJSON item) = true.
Proof.
  intros (fields & -> & _ & Hhas & Hty).
  rewrite toJSON_typed_fields by done.
  apply isValidTodo_shaped. eexists. split; [done|].
  rewrite !obj_get_wire.
  unfold TODO_FIELDS in Hhas.
  repeat (apply Forall_cons_1 in Hhas as [?%obj_get_typed Hhas]; [|done]).
  repeat match goal with
  | H : field_typed _ (obj_get ?k fields) = true |- _ =>
      destruct (obj_get k fields) as [| | | | |[?|]| |]; try discriminate H; clear H
  end; simpl; repeat split; eauto.
Qed.

Lemma wire_normalise_other rest :
  Forall (fun kv => field_typed kv.1 kv.2 = true) rest →
  "createdAt" ∉ map fst rest →
  map wire_field rest = map normalise_field rest.
Proof.
  induction 1 as [|[k v] rest Hkv _ IH]; [done|].
  simpl. intros Hnotin. apply not_elem_of_cons in Hnotin as [Hk Hnotin].
  rewrite IH by done. f_equal.
  assert (String.eqb k "createdAt" = false) as Hkb by (apply String.eqb_neq; auto).
  unfold wire_field, normalise_field. simpl in *.
  destruct v as [| | | | |[?|]| |]; simpl in *; try discriminate; try done.
  - by rewrite Hkb.
  - congruence.
Qed.

Lemma reviveTodo_wire fields :
  NoDup (map fst fields) →
  Forall (fun kv => field_typed kv.1 kv.2 = true) fields →
  obj_has "createdAt" fields = true →
  (∀ t, obj_get "createdAt" fields = JDate (Some t) →
        Date_parse (Date_toISOString t) = Some t) →
  reviveTodo (JObj (map wire_field fields)) = JObj (map normalise_field fields).
Proof.
  unfold reviveTodo, get_prop. simpl own_props. intros Hnd Hty Hhas Hdate. f_equal.
  induction Hty as [|[k v] rest Hkv Hty IH]; [done|].
  apply NoDup_cons in Hnd as [Hk Hnd]. simpl in *.
  destruct (String.eqb k "createdAt") eqn:E.
  - apply String.eqb_eq in E. subst k. rewrite wire_normalise_other by done.
    f_equal. unfold normalise_field. simpl.
    destruct v as [| | | | |[t|]| |]; simpl in *; try discriminate; try done.
    by rewrite (Hdate t eq_refl).
  - rewrite IH by done. f_equal.
    unfold wire_field, normalise_field. simpl.
    destruct v as [| | | | |[?|]| |]; simpl in *; try discriminate; try done.
    + by rewrite E.
    + congruence.
Qed.

Lemma valid_todo_revived item :
  valid_todo item →
  (∀ t, get_prop item "createdAt" = JDate (Some t) →
        Date_parse (Date_toISOString t) = Some t) →
  reviveTodo (toJSON item) = normalise_createdAt item.
Proof.
  intros (fields & -> & Hnd & Hhas & Hty) Hdate.
  rewrite toJSON_typed_fields by done.
  apply reviveTodo_wire; try done.
  unfold TODO_FIELDS in Hhas.
  by repeat (apply Forall_cons_1 in Hhas as [? Hhas]).
Qed.

Lemma valid_todo_not_undefined item :
  valid_todo item →
  match item with JUndefined => JNull | _ => toJSON item end = toJSON item.
Proof. by intros (fields & -> & _). Qed.

Lemma toJSON_valid_todos todos :
  Forall valid_todo todos →
  toJSON (JArr todos) = JArr (map toJSON todos).
Proof.
  intros Hv. simpl. f_equal. apply map_ext_Forall.
  eapply Forall_impl; [done|]. by intros ? (fields & -> & _).
Qed.

Lemma normalise_field_other k v :
  String.eqb k "createdAt" = false → normalise_field (k, v) = (k, v).
Proof.
  intros E. unfold normalise_field. simpl. destruct v; try done. by rewrite E.
Qed.

(** A date-valued [createdAt] is left as it is by the normalisation. *)
Lemma normalise_createdAt_date item :
  valid_todo item →
  (∃ t, get_prop item "createdAt" = JDate (Some t)) →
  normalise_createdAt item = item.
Proof.
  intros (fields & -> & Hnd & _ & Hty) [t Ht].
  unfold normalise_createdAt, get_prop in *. simpl in *. f_equal.
  clear Hty. induction fields as [|[k v] rest IH]; [done|].
  apply NoDup_cons in Hnd as [Hk Hnd]. simpl in *.
  destruct (String.eqb k "createdAt") eqn:E.
  - subst v. f_equal. clear IH.
    apply String.eqb_eq in E. subst k.
    induction rest as [|[k v] rest IH]; [done|].
    simpl in *. apply not_elem_of_cons in Hk as [Hne Hk].
    apply NoDup_cons in Hnd as [_ Hnd].
    rewrite IH by done. f_equal. apply normalise_field_other.
    apply String.eqb_neq. auto.
  - rewrite IH by done. f_equal. by apply normalise_field_other.
Qed.

Lemma isValidTodos_wire todos :
  Forall valid_todo todos → isValidTodos (toJSON (JArr todos)) = true.
Proof.
  intros Hv. rewrite toJSON_valid_todos by done.
  unfold isValidTodos. simpl.
  induction Hv as [|item rest Hitem _ IH]; [done|].
  simpl. by rewrite valid_todo_wire_shaped, IH.
Qed.


End RoundTrip.

(** ** The reference platform obeys the laws *)

Module ReferenceLaws.
Import Reference.

Lemma app_cons c s t : String c s +:+ t = String c (s +:+ t).
Proof. reflexivity. Qed.

Lemma app_assoc' s t u : (s +:+ t) +:+ u = s +:+ (t +:+ u).
Proof. induction s as [|c s IH]; [done|]. by rewrite !app_cons, IH. Qed.

Lemma app_nil' t : "" +:+ t = t.
Proof. reflexivity. Qed.

Ltac norm_app := repeat (rewrite app_assoc' || rewrite app_cons || rewrite app_nil').

Lemma length_app' s t :
  String.length (s +:+ t) = (String.length s + String.length t)%nat.
Proof. induction s as [|c s IH]; [done|]. rewrite app_cons. simpl. by rewrite IH. Qed.

Lemma read_string_quote_body s rest :
  read_string (quote_body s +:+ String DQ rest) = Some (s, rest).
Proof.
  induction s as [|c s IH]; [reflexivity|].
  destruct c as [[] [] [] [] [] [] [] []]; simpl;
    rewrite ?app_cons, IH; reflexivity.
Qed.

Lemma quote_app s rest :
  quote s +:+ rest = String DQ (quote_body s +:+ String DQ rest).
Proof. unfold quote. by rewrite app_cons, app_assoc'. Qed.

Lemma parse_value_flat fuel v rest :
  (0 < fuel)%nat →
  flat v = true →
  parse_value fuel (print v +:+ rest) = Some (v, rest).
Proof.
  intros Hfuel. destruct fuel as [|fuel]; [lia|].
  destruct v as [| |[]| |s| | |]; try discriminate; intros _.
  - reflexivity.
  - reflexivity.
  - simpl print. rewrite quote_app. simpl. by rewrite read_string_quote_body.
Qed.

(** One member, then the separator that follows it. *)
Lemma parse_members_step fuel k tail :
  parse_members (S fuel) (quote k +:+ String ":" tail) =
  match parse_value fuel tail with
  | Some (v, rest3) =>
      match skip_ws rest3 with
      | String "}" rest' => Some ([(k, v)], rest')
      | String "," rest' =>
          match parse_members fuel rest' with
          | Some (ms, rest'') => Some ((k, v) :: ms, rest'')
          | None => None
          end
      | _ => None
      end
  | None => None
  end.
Proof.
  rewrite quote_app. simpl. by rewrite read_string_quote_body.
Qed.

Lemma parse_members_flat fields : ∀ fuel rest,
  fields ≠ [] →
  Forall (fun kv => flat kv.2 = true) fields →
  (length fields < fuel)%nat →
  parse_members fuel
    (String.concat "," (map member_text fields) +:+ String "}" rest)
  = Some (fields, rest).
Proof.
  induction fields as [|[k v] more IH]; intros fuel rest Hne Hflat Hfuel; [done|].
  apply Forall_cons_1 in Hflat as [Hv Hflat]. simpl in Hv.
  destruct fuel as [|fuel]; [simpl in Hfuel; lia|].
  simpl in Hfuel.
  destruct more as [|kv' more].
  - simpl String.concat. unfold member_text. simpl fst. simpl snd.
    norm_app. rewrite parse_members_step.
    rewrite parse_value_flat by (done || lia). reflexivity.
  - change (String.concat "," (map member_text ((k, v) :: kv' :: more)))
      with (member_text (k, v) +:+ "," +:+
            String.concat "," (map member_text (kv' :: more))).
    unfold member_text at 1. simpl fst. simpl snd.
    norm_app. rewrite parse_members_step.
    rewrite parse_value_flat by (done || simpl in *; lia).
    cbn [skip_ws is_ws]. simpl.
    rewrite IH; [done|done|done|]. simpl in *. lia.
Qed.

Lemma spread_fresh fields : ∀ acc,
  NoDup (map fst acc ++ map fst fields) →
  spread acc fields = acc ++ fields.
Proof.
  unfold spread.
  induction fields as [|[k v] more IH]; intros acc Hnd; simpl.
  - by rewrite app_nil_r.
  - assert (obj_set k v acc = acc ++ [(k, v)]) as ->.
    { apply NoDup_app in Hnd as (_ & Hdisj & _).
      assert (k ∉ map fst acc) as Hk.
      { intros Hin. apply (Hdisj k Hin). simpl. left. }
      clear -Hk. induction acc as [|[k' v'] acc IH]; [done|].
      simpl in *. apply not_elem_of_cons in Hk as [Hne Hk].
      assert (String.eqb k' k = false) as -> by (apply String.eqb_neq; auto).
      by rewrite IH. }
    rewrite IH.
    + by rewrite <- app_assoc.
    + rewrite map_app. simpl. by rewrite <- app_assoc.
Qed.

Lemma parse_value_object_step fuel tail :
  parse_value (S fuel) (String "{" (String DQ tail)) =
  match parse_members fuel (String DQ tail) with
  | Some (members, rest') => Some (JObj (spread [] members), rest')
  | None => None
  end.
Proof. reflexivity. Qed.

Lemma parse_value_record fuel v rest :
  flat_record v →
  (length (own_props v) + 1 < fuel)%nat →
  parse_value fuel (print v +:+ rest) = Some (v, rest).
Proof.
  intros (fields & -> & Hne & Hnd & Hflat) Hfuel. simpl in Hfuel.
  destruct fuel as [|fuel]; [lia|].
  simpl print. fold member_text.
  change (map (λ kv : string * JsValue, quote kv.1 +:+ ":" +:+ print kv.2) fields)
    with (map member_text fields).
  norm_app.
  destruct fields as [|[k v] more]; [done|].
  assert (Hstart : ∃ tail,
    String.concat "," (map member_text ((k, v) :: more)) +:+ String "}" rest
    = String DQ tail).
  { destruct more; simpl String.concat; unfold member_text at 1; simpl fst;
      norm_app; rewrite quote_app; eauto. }
  destruct Hstart as [tail Htail].
  rewrite Htail, parse_value_object_step, <- Htail.
  rewrite parse_members_flat; [|done|done|simpl in *; lia].
  rewrite (spread_fresh _ []); [done|]. done.
Qed.

Lemma parse_elems_step fuel tail :
  parse_elems (S fuel) tail =
  match parse_value fuel tail with
  | Some (v, rest) =>
      match skip_ws rest with
      | String "]" rest' => Some ([v], rest')
      | String "," rest' =>
          match parse_elems fuel rest' with
          | Some (vs, rest'') => Some (v :: vs, rest'')
          | None => None
          end
      | _ => None
      end
  | None => None
  end.
Proof. reflexivity. Qed.

Lemma parse_elems_records elems : ∀ fuel rest,
  elems ≠ [] →
  Forall flat_record elems →
  (fuel_for elems ≤ fuel)%nat →
  parse_elems fuel (String.concat "," (map print elems) +:+ String "]" rest)
  = Some (elems, rest).
Proof.
  induction elems as [|x more IH]; intros fuel rest Hne Hrec Hfuel; [done|].
  apply Forall_cons_1 in Hrec as [Hx Hrec].
  destruct fuel as [|fuel]; [simpl in Hfuel; lia|].
  rewrite parse_elems_step.
  destruct more as [|y more].
  - simpl String.concat.
    rewrite parse_value_record by (done || simpl in Hfuel; lia). reflexivity.
  - change (String.concat "," (map print (x :: y :: more)))
      with (print x +:+ "," +:+ String.concat "," (map print (y :: more))).
    norm_app.
    rewrite parse_value_record by (done || simpl in Hfuel; lia).
    cbn [skip_ws is_ws]. simpl.
    rewrite IH; [done|done|done|]. simpl in *. lia.
Qed.

Lemma parse_value_array_step fuel tail :
  parse_value (S fuel) (String "[" (String "{" tail)) =
  match parse_elems fuel (String "{" tail) with
  | Some (elems, rest') => Some (JArr elems, rest')
  | None => None
  end.
Proof. reflexivity. Qed.

Lemma length_quote s : (2 ≤ String.length (quote s))%nat.
Proof. unfold quote. simpl. rewrite length_app'. simpl. lia. Qed.

Lemma length_members fields :
  (2 * length fields ≤
   String.length (String.concat "," (map member_text fields)))%nat.
Proof.
  induction fields as [|kv more IH]; [simpl; lia|].
  assert (2 ≤ String.length (member_text kv))%nat as Hkv.
  { unfold member_text. rewrite length_app'. pose proof (length_quote kv.1). lia. }
  destruct more as [|kv' more].
  - simpl String.concat. simpl length. lia.
  - change (String.concat "," (map member_text (kv :: kv' :: more)))
      with (member_text kv +:+ "," +:+
            String.concat "," (map member_text (kv' :: more))).
    rewrite !length_app'. simpl length in *. lia.
Qed.

Lemma length_print_record v :
  flat_record v →
  (length (own_props v) + 3 ≤ String.length (print v))%nat.
Proof.
  intros (fields & -> & Hne & _). simpl own_props. simpl print.
  change (map (λ kv : string * JsValue, quote kv.1 +:+ ":" +:+ print kv.2) fields)
    with (map member_text fields).
  norm_app. simpl String.length. rewrite length_app'. simpl String.length.
  pose proof (length_members fields). destruct fields; [done|]. simpl in *. lia.
Qed.

Lemma fuel_for_le elems :
  Forall flat_record elems →
  (fuel_for elems ≤ String.length (String.concat "," (map print elems)))%nat.
Proof.
  induction 1 as [|x more Hx Hmore IH]; [simpl; lia|].
  pose proof (length_print_record x Hx) as Hlen.
  destruct more as [|y more].
  - simpl String.concat. simpl fuel_for. lia.
  - change (String.concat "," (map print (x :: y :: more)))
      with (print x +:+ "," +:+ String.concat "," (map print (y :: more))).
    rewrite !length_app'. change (String.length ",") with 1%nat.
    change (fuel_for (x :: y :: more))
      with (Nat.max (length (own_props x) + 3) (S (fuel_for (y :: more)))).
    lia.
Qed.

Lemma print_array elems :
  print (JArr elems) = String "[" (String.concat "," (map print elems) +:+ "]").
Proof. reflexivity. Qed.

(** Parsing the printed text of an array of records gives the array back. *)
Lemma parse_print_records elems :
  Forall flat_record elems →
  parse (print (JArr elems)) = Some (JArr elems).
Proof.
  intros Hrec. destruct elems as [|x more]; [reflexivity|].
  unfold parse.
  pose proof (fuel_for_le _ Hrec) as Hfuel.
  assert (Hstart : ∃ tail, String.concat "," (map print (x :: more)) = String "{" tail).
  { apply Forall_cons_1 in Hrec as [(fields & -> & _) _].
    destruct more; simpl String.concat; simpl print; norm_app; eauto. }
  destruct Hstart as [tail Htail].
  rewrite print_array.
  change (String.length (String "[" ?s)) with (S (String.length s)).
  rewrite length_app'.
  rewrite Htail at 2. rewrite app_cons, parse_value_array_step.
  rewrite <- app_cons, <- Htail.
  rewrite parse_elems_records; [reflexivity|done|done|].
  change (String.length "]") with 1%nat. lia.
Qed.

Lemma digit_value_digit_char k :
  0 ≤ k ≤ 9 → digit_value (digit_char k) = Some k.
Proof.
  intros Hk.
  assert (k = 0 ∨ k = 1 ∨ k = 2 ∨ k = 3 ∨ k = 4 ∨ k = 5 ∨ k = 6 ∨ k = 7 ∨
          k = 8 ∨ k = 9) as Hcases by lia.
  repeat (destruct Hcases as [->|Hcases]; [reflexivity|]). by subst.
Qed.

Lemma pad_S w n : pad (S w) n = pad w (n / 10) +:+ String (digit_char (n mod 10)) "".
Proof. reflexivity. Qed.

(** Reading one digit more is reading the digits, then one digit. *)
Lemma read_fixed_S w : ∀ acc s,
  read_fixed (S w) acc s =
  match read_fixed w acc s with
  | Some (a, String c rest) =>
      match digit_value c with
      | Some d => Some (10 * a + d, rest)
      | None => None
      end
  | _ => None
  end.
Proof.
  induction w as [|w IH]; intros acc s.
  - simpl. destruct s as [|c rest]; [done|]. by destruct (digit_value c).
  - change (read_fixed (S (S w)) acc s)
      with (match s with
            | String c rest =>
                match digit_value c with
                | Some d => read_fixed (S w) (10 * acc + d) rest
                | None => None
                end
            | EmptyString => None
            end).
    destruct s as [|c rest]; [done|]. simpl.
    destruct (digit_value c) as [d|]; [|done]. apply IH.
Qed.

Lemma read_fixed_pad w : ∀ n acc rest,
  0 ≤ n < 10 ^ Z.of_nat w →
  read_fixed w acc (pad w n +:+ rest) = Some (acc * 10 ^ Z.of_nat w + n, rest).
Proof.
  induction w as [|w IH]; intros n acc rest Hn.
  - simpl in *. assert (n = 0) as -> by lia. f_equal. f_equal. lia.
  - rewrite Nat2Z.inj_succ, Z.pow_succ_r in * by lia.
    rewrite read_fixed_S, pad_S. norm_app.
    rewrite IH by (split; [apply Z.div_pos; lia | apply Z.div_lt_upper_bound; lia]).
    rewrite digit_value_digit_char
      by (pose proof (Z.mod_pos_bound n 10 ltac:(lia)); lia).
    f_equal. f_equal.
    pose proof (Z.div_mod n 10 ltac:(lia)). lia.
Qed.

(** A padded number starts with a digit. *)
Lemma pad_starts_with_digit w : ∀ n rest,
  ∃ k tail, 0 ≤ k ≤ 9 ∧ pad (S w) n +:+ rest = String (digit_char k) tail.
Proof.
  induction w as [|w IH]; intros n rest.
  - exists (n mod 10), rest. split; [|done].
    pose proof (Z.mod_pos_bound n 10 ltac:(lia)). lia.
  - rewrite pad_S. norm_app.
    destruct (IH (n / 10) (String (digit_char (n mod 10)) rest)) as (k & tail & Hk & Heq).
    exists k, tail. by rewrite <- Heq.
Qed.

Lemma all_days_ok_at n : ∀ start doe,
  all_days_ok n start = true →
  start ≤ doe < start + Z.of_nat n →
  era_day_ok doe = true.
Proof.
  induction n as [|n IH]; intros start doe Hall Hdoe; [lia|].
  simpl in Hall. apply andb_true_iff in Hall as [Hhere Hnext].
  destruct (decide (doe = start)) as [->|Hne]; [done|].
  apply (IH (start + 1)); [done|lia].
Qed.

Lemma era_days_ok : all_days_ok (Z.to_nat 146097) 0 = true.
Proof. vm_compute. reflexivity. Qed.

Lemma era_day_ok_at doe : 0 ≤ doe < 146097 → era_day_ok doe = true.
Proof.
  intros Hdoe. apply (all_days_ok_at _ 0 doe era_days_ok). lia.
Qed.

Lemma civil_from_days_era days :
  civil_from_days days =
  let era := (days + 719468) / 146097 in
  let '(yoe, m, d) := civil_of_doe ((days + 719468) mod 146097) in
  (if m <=? 2 then yoe + era * 400 + 1 else yoe + era * 400, m, d).
Proof.
  unfold civil_from_days, civil_of_doe. cbv zeta.
  replace (days + 719468 - (days + 719468) / 146097 * 146097)
    with ((days + 719468) mod 146097) by (rewrite Z.mod_eq; lia).
  reflexivity.
Qed.

Lemma days_from_civil_era era yoe m d :
  0 ≤ yoe < 400 →
  days_from_civil (if m <=? 2 then yoe + era * 400 + 1 else yoe + era * 400) m d
  = era * 146097 + doe_of_civil yoe m d - 719468.
Proof.
  intros Hyoe. unfold days_from_civil, doe_of_civil. cbv zeta.
  assert ((if m <=? 2
           then (if m <=? 2 then yoe + era * 400 + 1 else yoe + era * 400) - 1
           else (if m <=? 2 then yoe + era * 400 + 1 else yoe + era * 400))
          = yoe + era * 400) as -> by (destruct (m <=? 2); lia).
  rewrite Z.div_add, (Z.div_small yoe 400) by lia.
  replace (yoe + era * 400 - (0 + era) * 400) with yoe by lia.
  lia.
Qed.

(** The civil date of a day number: a real date, of that day. *)
Lemma civil_from_days_spec days :
  ∃ y m d,
    civil_from_days days = (y, m, d) ∧
    1 ≤ m ≤ 12 ∧ 1 ≤ d ≤ 31 ∧
    days_from_civil y m d = days ∧
    (days + 719468) / 146097 * 400 ≤ y ≤ (days + 719468) / 146097 * 400 + 400.
Proof.
  rewrite civil_from_days_era. cbv zeta.
  pose proof (Z.mod_pos_bound (days + 719468) 146097 ltac:(lia)) as Hdoe.
  pose proof (era_day_ok_at _ Hdoe) as Hok. unfold era_day_ok in Hok.
  destruct (civil_of_doe ((days + 719468) mod 146097)) as [[yoe m] d].
  repeat (apply andb_true_iff in Hok as [Hok ?]).
  do 3 eexists. split; [reflexivity|].
  split; [lia|]. split; [lia|]. split.
  - rewrite days_from_civil_era by lia.
    assert (doe_of_civil yoe m d = (days + 719468) mod 146097) as -> by lia.
    rewrite Z.mod_eq by lia. lia.
  - destruct (m <=? 2); lia.
Qed.

Lemma read_field w n c rest :
  0 ≤ n < 10 ^ Z.of_nat w →
  read_fixed w 0 (pad w n +:+ String c rest) = Some (n, String c rest).
Proof. intros Hn. rewrite read_fixed_pad by done. by rewrite Z.mul_0_l. Qed.

Lemma expect_here c rest : expect c (String c rest) = Some rest.
Proof. unfold expect. by rewrite Ascii.eqb_refl. Qed.

(** The date and time fields are read back from their text. *)
Lemma read_date_time_fields sign width y m d hh mm ss ms :
  0 ≤ y < 10 ^ Z.of_nat width →
  1 ≤ m ≤ 12 → 1 ≤ d ≤ 31 →
  0 ≤ hh ≤ 23 → 0 ≤ mm ≤ 59 → 0 ≤ ss ≤ 59 → 0 ≤ ms ≤ 999 →
  civil_from_days (days_from_civil (sign * y) m d) = (sign * y, m, d) →
  read_date_time sign width
    (pad width y +:+ "-" +:+ pad 2 m +:+ "-" +:+ pad 2 d +:+ "T" +:+
     pad 2 hh +:+ ":" +:+ pad 2 mm +:+ ":" +:+ pad 2 ss +:+ "." +:+
     pad 3 ms +:+ "Z")
  = Some (days_from_civil (sign * y) m d * 86400000 + hh * 3600000 +
          mm * 60000 + ss * 1000 + ms).
Proof.
  intros Hy Hm Hd Hhh Hmm Hss Hms Hcivil.
  unfold read_date_time.
  repeat (rewrite app_cons || rewrite app_nil').
  rewrite (read_field width y) by done.
  cbn [mbind option_bind]. rewrite expect_here. cbn [mbind option_bind].
  rewrite (read_field 2 m) by (simpl; lia).
  cbn [mbind option_bind]. rewrite expect_here. cbn [mbind option_bind].
  rewrite (read_field 2 d) by (simpl; lia).
  cbn [mbind option_bind]. rewrite expect_here. cbn [mbind option_bind].
  rewrite (read_field 2 hh) by (simpl; lia).
  cbn [mbind option_bind]. rewrite expect_here. cbn [mbind option_bind].
  rewrite (read_field 2 mm) by (simpl; lia).
  cbn [mbind option_bind]. rewrite expect_here. cbn [mbind option_bind].
  rewrite (read_field 2 ss) by (simpl; lia).
  cbn [mbind option_bind]. rewrite expect_here. cbn [mbind option_bind].
  rewrite (read_field 3 ms) by (simpl; lia).
  cbn [mbind option_bind]. rewrite expect_here. cbn [mbind option_bind].
  cbv zeta. rewrite (bool_decide_eq_true_2 _ Hcivil).
  replace (1 <=? m) with true by (symmetry; apply Z.leb_le; lia).
  replace (m <=? 12) with true by (symmetry; apply Z.leb_le; lia).
  replace (1 <=? d) with true by (symmetry; apply Z.leb_le; lia).
  replace (hh <=? 23) with true by (symmetry; apply Z.leb_le; lia).
  replace (mm <=? 59) with true by (symmetry; apply Z.leb_le; lia).
  replace (ss <=? 59) with true by (symmetry; apply Z.leb_le; lia).
  reflexivity.
Qed.

Lemma parseISO_unsigned k tail :
  0 ≤ k ≤ 9 →
  parseISO (String (digit_char k) tail) = read_date_time 1 4 (String (digit_char k) tail).
Proof.
  intros Hk.
  assert (k = 0 ∨ k = 1 ∨ k = 2 ∨ k = 3 ∨ k = 4 ∨ k = 5 ∨ k = 6 ∨ k = 7 ∨
          k = 8 ∨ k = 9) as Hcases by lia.
  repeat (destruct Hcases as [->|Hcases]; [reflexivity|]). by subst.
Qed.

Lemma time_of_day_bounds msd :
  0 ≤ msd < 86400000 →
  0 ≤ msd / 3600000 ≤ 23 ∧ 0 ≤ msd / 60000 mod 60 ≤ 59 ∧
  0 ≤ msd / 1000 mod 60 ≤ 59 ∧ 0 ≤ msd mod 1000 ≤ 999 ∧
  msd / 3600000 * 3600000 + msd / 60000 mod 60 * 60000 +
  msd / 1000 mod 60 * 1000 + msd mod 1000 = msd.
Proof. intros Hmsd. Z.div_mod_to_equations. lia. Qed.

(** [new Date(d.toISOString())] is the date [d]. *)
Theorem parseISO_toISOString t :
  time_value t → parseISO (toISOString t) = Some t.
Proof.
  unfold time_value. intros Ht.
  destruct (civil_from_days_spec (t / 86400000))
    as (y & m & d & Hciv & Hm & Hd & Hdays & Hy).
  pose proof (Z.mod_pos_bound t 86400000 ltac:(lia)) as Hmsd.
  destruct (time_of_day_bounds _ Hmsd) as (Hhh & Hmm & Hss & Hms & Hsum).
  assert (-272000 ≤ y ≤ 276000) as Hyear by (Z.div_mod_to_equations; lia).
  assert (civil_from_days (days_from_civil y m d) = (y, m, d)) as Hcivil
    by (by rewrite Hdays).
  assert (days_from_civil y m d * 86400000 + t mod 86400000 = t) as Hsplit.
  { rewrite Hdays. rewrite (Z.div_mod t 86400000) at 3 by lia. lia. }
  unfold toISOString. rewrite Hciv. cbv beta iota zeta.
  destruct ((0 <=? y) && (y <=? 9999)) eqn:Hrange.
  - apply andb_true_iff in Hrange as [H0%Z.leb_le H9%Z.leb_le].
    match goal with |- parseISO (pad 4 y +:+ ?rest) = _ =>
      destruct (pad_starts_with_digit 3 y rest) as (k & tail & Hk & Heq)
    end.
    rewrite Heq, parseISO_unsigned, <- Heq by done.
    rewrite read_date_time_fields; try done; rewrite ?Z.mul_1_l; try done.
    + f_equal. lia.
    + simpl. lia.
  - destruct (y <? 0) eqn:Hneg.
    + apply Z.ltb_lt in Hneg. rewrite app_assoc', app_cons, app_nil'.
      change (parseISO (String "-" ?s)) with (read_date_time (-1) 6 s).
      assert (-1 * - y = y) as Hsign by lia.
      rewrite read_date_time_fields; try done; rewrite ?Hsign; try done.
      * f_equal. lia.
      * simpl. lia.
    + apply Z.ltb_ge in Hneg. rewrite app_assoc', app_cons, app_nil'.
      change (parseISO (String "+" ?s)) with (read_date_time 1 6 s).
      rewrite read_date_time_fields; try done; rewrite ?Z.mul_1_l; try done.
      * f_equal. lia.
      * simpl. lia.
Qed.

(** *** Valid todos on the reference platform *)

Lemma valid_todo_flat_record item :
  valid_todo item → flat_record (toJSON item).
Proof.
  intros (fields & -> & Hnd & Hhas & Hty).
  rewrite toJSON_typed_fields by done.
  exists (map wire_field fields). split; [done|]. split; [|split].
  - apply Forall_cons_1 in Hhas as [Hid _]. by destruct fields.
  - rewrite map_map. by rewrite (map_ext _ fst) by done.
  - apply Forall_map. eapply Forall_impl; [done|].
    intros [k v] Hkv. simpl in *. by destruct v as [| | | | |[?|]| |].
Qed.

Lemma parse_print_valid_todos todos :
  Forall valid_todo todos →
  parse (print (toJSON (JArr todos))) = Some (toJSON (JArr todos)).
Proof.
  intros Hvalid. rewrite toJSON_valid_todos by done.
  apply parse_print_records, Forall_map.
  eapply Forall_impl; [done|]. apply valid_todo_flat_record.
Qed.

(** On the reference platform the round trip needs no assumption on
    [JSON] or [Date]: whenever the store accepts the write and serves the
    read, a sequence of valid todos whose dates are time values is loaded
    back with [createdAt] normalised. *)
Theorem reference_save_then_load (todos : list JsValue) (e : Env) :
  Forall valid_todo todos →
  (∀ t, created_instant todos t → time_value t) →
  setItem_fault (sessionStorage e) = None →
  getItem_fault (sessionStorage e) = None →
  ∃ e1 e2,
    saveTodos todos e = (e1, Normal {| success := true; error := None |}) ∧
    loadTodos e1 = (e2, Normal (map normalise_createdAt todos)).
Proof.
  intros Hvalid Htime Hset Hget.
  rewrite (saveTodos_ok todos e (print (toJSON (JArr todos))))
    by (unfold write_attempt;
        change (JSON_stringify (JArr todos)) with (Normal (print (toJSON (JArr todos))));
        by rewrite Hset).
  do 2 eexists. split; [done|].
  erewrite loadTodos_valid;
    [| done | apply lookup_insert_eq
     | by rewrite toJSON_valid_todos, print_array
     | by apply parse_print_valid_todos | by apply isValidTodos_wire].
  f_equal. f_equal. rewrite toJSON_valid_todos by done. simpl.
  rewrite map_map. apply map_ext_Forall, Forall_forall. intros item Hin.
  apply valid_todo_revived.
  - by eapply Forall_forall in Hvalid.
  - intros t Ht. apply parseISO_toISOString, Htime. by exists item.
Qed.

End ReferenceLaws.

(** *** Runs on the reference platform *)

(** C3 as the specification states it, refuted.  The stored empty string
    fails to parse as JSON, yet [loadTodos] logs nothing and leaves the key
    in place.  And when the parsed value has the wrong shape and the store
    refuses the removal, the refusal is not passed over in silence: it is
    logged as a failed load. *)
Lemma C3_empty_string_not_cleared :
  (JSON_parse "" = None ∧
   ∃ e', loadTodos (healthy {[ STORAGE_KEY := "" ]}) = (e', Normal []) ∧
         console e' = [] ∧
         items (sessionStorage e') !! STORAGE_KEY = Some "") ∧
  (JSON_parse "[null]" = Some (JArr [JNull]) ∧
   isValidTodos (JArr [JNull]) = false ∧
   ∃ e', loadTodos (sticky {[ STORAGE_KEY := "[null]" ]} (TypeError "denied"))
           = (e', Normal []) ∧
         console e' = [Warn WARN_INVALID None;
                       Warn WARN_LOAD_FAILED (Some (TypeError "denied"))]).
Proof.
  split.
  - split; [reflexivity|]. eexists. split.
    + apply loadTodos_empty_string; [reflexivity | apply lookup_singleton_eq].
    + split; [reflexivity | apply lookup_singleton_eq].
  - split; [reflexivity|]. split; [reflexivity|]. eexists. split.
    + apply (loadTodos_misshapen _ "[null]" (JArr [JNull]));
        [reflexivity | apply lookup_singleton_eq | discriminate
        | reflexivity | reflexivity].
    + reflexivity.
Qed.

(** The corrupt text of the test-suite, in a store that refuses removals. *)
Lemma C3_corrupt_data_cleared_witness :
  ∃ e',
    loadTodos (sticky {[ STORAGE_KEY := "invalid json" ]} (TypeError "denied"))
      = (e', Normal []) ∧
    items (sessionStorage e') !! STORAGE_KEY = Some "invalid json" ∧
    console e' =
      [Warn WARN_LOAD_FAILED (Some (SyntaxError "Unexpected token in JSON"))].
Proof.
  assert (Hne : "invalid json" ≠ "") by discriminate.
  exact (C3_corrupt_data_cleared
           (sticky {[ STORAGE_KEY := "invalid json" ]} (TypeError "denied"))
           "invalid json" eq_refl (lookup_singleton_eq _ _) Hne
           (or_introl eq_refl)).
Defined.

Lemma C10_empty_string_like_absent_witness :
  loadTodos (healthy {[ STORAGE_KEY := "" ]})
    = (healthy {[ STORAGE_KEY := "" ]}, Normal []).
Proof.
  apply (C10_empty_string_like_absent (healthy {[ STORAGE_KEY := "" ]})).
  - reflexivity.
  - left. apply lookup_singleton_eq.
Defined.




(** What the round trip yields on the reference platform: the date comes
    back as the same instant, the ISO string as the date it denotes. *)
Remark round_trip_sample :
  map normalise_createdAt [sample_todo; sample_wire_todo]
  = [sample_todo;
     JObj [("id", JStr "2"); ("title", JStr "Existing Todo");
           ("description", JStr "From storage"); ("completed", JBool true);
           ("createdAt", JDate (Some 1672531200000))]].
Proof. vm_compute. reflexivity. Qed.

(** Outside the valid sequences: a [createdAt] that is the Invalid Date is
    written as [null], so the next [loadTodos] finds the shape violated,
    clears the key and returns the empty array. *)
Remark invalid_date_is_not_recovered :
  let todo := JObj [("id", JStr "1"); ("title", JStr "t"); ("description", JStr "");
                    ("completed", JBool false); ("createdAt", JDate None)] in
  isValidTodos (JArr [todo]) = true ∧
  ∃ e1 e2,
    saveTodos [todo] (healthy ∅) = (e1, Normal {| success := true; error := None |}) ∧
    loadTodos e1 = (e2, Normal []) ∧
    items (sessionStorage e2) !! STORAGE_KEY = None.
Proof.
  simpl. split; [reflexivity|].
  erewrite saveTodos_ok by reflexivity. do 2 eexists. split; [done|].
  erewrite loadTodos_misshapen;
    [| reflexivity | apply lookup_insert_eq | by vm_compute
     | vm_compute; reflexivity | reflexivity].
  simpl. split; [done|]. apply lookup_delete_eq.
Qed.

(** ** The state owner *)

Section ProviderProperties.
Context `{D : DateAPI} `{J : JSONAPI}.

(** The effect always completes, and records exactly one [saveTodos] call
    with the current collection. *)
Lemma persist_spec w :
  ∃ w', persist w = Some w' ∧
        todos w' = todos w ∧ next_ref w' = next_ref w ∧ clock w' = clock w ∧
        saved w' = saved w ++ [contents (todos w)].
Proof.
  unfold persist.
  destruct (saveTodos_total (contents (todos w)) (env w)) as (e & r & ->).
  destruct (error r) as [msg|]; [destruct (_ && _)|]; eexists; split; done.
Qed.

Lemma setTodos_same next w :
  ref next = ref (todos w) → setTodos next w = Some w.
Proof.
  intros Heq. unfold setTodos, Object_is. by rewrite Heq, Nat.eqb_refl.
Qed.

Lemma setTodos_fresh next w :
  ref next ≠ ref (todos w) →
  ∃ w', setTodos next w = Some w' ∧
        todos w' = next ∧ next_ref w' = next_ref w ∧ clock w' = clock w ∧
        saved w' = saved w ++ [contents next].
Proof.
  intros Hne. unfold setTodos, Object_is.
  apply Nat.eqb_neq in Hne. rewrite Hne.
  destruct (persist_spec (set_todos next w)) as (w' & -> & ? & ? & ? & ?).
  by exists w'.
Qed.

(** One operation: a fresh array becomes the state, and the effect writes
    it once. *)
Lemma run_spec op w :
  heap_ok w →
  ∃ w', run op w = Some w' ∧
        todos w' = {| ref := next_ref w;
                      contents := next_contents op (clock w) (contents (todos w)) |} ∧
        saved w' = saved w ++ [contents (todos w')] ∧
        clock w' = clock w ∧
        heap_ok w'.
Proof.
  intros Hok. unfold heap_ok in *.
  set (next := {| ref := next_ref w;
                  contents := next_contents op (clock w) (contents (todos w)) |}).
  set (w1 := (new_array (contents next) w).2).
  assert (Hrun : run op w = setTodos next w1) by (by destruct op).
  destruct (setTodos_fresh next w1) as (w' & Hset & Htodos & Hnext & Hclock & Hsaved).
  { simpl. lia. }
  exists w'. rewrite Hrun, Hset, Htodos, Hsaved, Hclock, Hnext.
  repeat split; try done. simpl. lia.
Qed.

(** Mounting always completes: the loaded collection becomes the state and
    the effect has written it once. *)
Lemma mount_spec e now :
  ∃ e' loaded w,
    loadTodos e = (e', Normal loaded) ∧
    mount e now = Some w ∧
    todos w = {| ref := 0; contents := loaded |} ∧
    saved w = [loaded] ∧
    clock w = now ∧
    heap_ok w.
Proof.
  destruct (loadTodos_total e) as (e' & loaded & Hload).
  unfold mount. rewrite Hload.
  match goal with |- context [persist ?w0] =>
    destruct (persist_spec w0) as (w & -> & Htodos & Hnext & Hclock & Hsaved)
  end.
  exists e', loaded, w. simpl in *.
  repeat split; try done. unfold heap_ok. rewrite Htodos, Hnext. simpl. lia.
Qed.

Lemma toggled_no_match id todos :
  (∀ todo, todo ∈ todos → strict_eq_str (get_prop todo "id") id = false) →
  toggled id todos = todos.
Proof.
  intros Hno. unfold toggled. rewrite <- (map_id todos) at 2.
  apply map_ext_Forall, Forall_forall. intros todo Hin. by rewrite Hno.
Qed.


(** C8, amended: toggling an id that matches no record installs a newly
    allocated array holding the same records in the same order (the
    contents are unchanged, the reference is not), and because the state is
    a different array the effect runs and writes that collection exactly
    once. *)
Theorem C8_toggle_unknown_id_rewrites (w : World) (id : string) :
  heap_ok w →
  (∀ todo, todo ∈ contents (todos w) → strict_eq_str (get_prop todo "id") id = false) →
  ∃ w',
    toggleTodoCompletion id w = Some w' ∧
    contents (todos w') = contents (todos w) ∧
    ref (todos w') ≠ ref (todos w) ∧
    saved w' = saved w ++ [contents (todos w)].
Proof.
  intros Hok Hno.
  destruct (run_spec (ToggleTodoCompletion id) w Hok)
    as (w' & Hrun & Htodos & Hsaved & _).
  exists w'. simpl in Hrun, Htodos. rewrite (toggled_no_match id _ Hno) in Htodos.
  rewrite Hsaved, Htodos. simpl. repeat split; try done.
  unfold heap_ok in Hok. lia.
Qed.

End ProviderProperties.

(** ** Identifiers of the records *)

Lemma obj_get_set_eq k v fields : obj_get k (obj_set k v fields) = v.
Proof.
  induction fields as [|[k' v'] rest IH]; simpl.
  - by rewrite String.eqb_refl.
  - destruct (String.eqb k' k) eqn:E; simpl; [by rewrite String.eqb_refl|].
    by rewrite E.
Qed.

Lemma obj_get_set_ne k k' v fields :
  k ≠ k' → obj_get k (obj_set k' v fields) = obj_get k fields.
Proof.
  intros Hne. induction fields as [|[k0 v0] rest IH]; simpl.
  - assert (String.eqb k' k = false) as -> by (apply String.eqb_neq; auto). done.
  - destruct (String.eqb k0 k') eqn:E; simpl.
    + apply String.eqb_eq in E. subst k0.
      by assert (String.eqb k' k = false) as -> by (apply String.eqb_neq; auto).
    + by rewrite IH.
Qed.

Lemma obj_get_spread_absent k base updates :
  obj_has k updates = false →
  obj_get k (spread base updates) = obj_get k base.
Proof.
  unfold spread, obj_has. revert base.
  induction updates as [|[k' v'] rest IH]; intros base Hno; simpl in *; [done|].
  apply orb_false_iff in Hno as [Hk Hrest].
  rewrite IH by done. apply obj_get_set_ne.
  apply String.eqb_neq in Hk. auto.
Qed.

Lemma ids_added uuid title description now todos :
  ids (added uuid title description now todos) = ids todos ++ [JStr uuid].
Proof. unfold ids, added. by rewrite map_app. Qed.

Lemma ids_edited id updates todos :
  obj_has "id" updates = false →
  ids (edited id updates todos) = ids todos.
Proof.
  intros Hno. unfold ids, edited. rewrite map_map. apply map_ext.
  intros todo. destruct (strict_eq_str _ _); [|done].
  unfold get_prop at 1. simpl. by apply obj_get_spread_absent.
Qed.

Lemma ids_toggled id todos : ids (toggled id todos) = ids todos.
Proof.
  unfold ids, toggled. rewrite map_map. apply map_ext.
  intros todo. destruct (strict_eq_str _ _); [|done].
  unfold get_prop at 1. simpl. by apply obj_get_set_ne.
Qed.

Lemma ids_deleted id todos :
  ids (deleted id todos) =
  List.filter (fun v => negb (strict_eq_str v id)) (ids todos).
Proof.
  unfold ids, deleted. induction todos as [|todo rest IH]; simpl; [done|].
  destruct (strict_eq_str _ _); simpl; by rewrite IH.
Qed.

Lemma NoDup_list_filter {A} (f : A → bool) (l : list A) :
  NoDup l → NoDup (List.filter f l).
Proof.
  induction 1 as [|x l Hx Hl IH]; simpl; [constructor|].
  destruct (f x); [|done]. constructor; [|done].
  rewrite list_elem_of_In, filter_In, <- list_elem_of_In. tauto.
Qed.

(** C6 as the specification states it, refuted: [editTodo] merges whatever
    [updates] carries, so an update with an [id] field rewrites the id of
    an existing record and can make two records share one id. *)
Lemma C6_edit_can_overwrite_id :
  NoDup (ids [sample_todo; sample_wire_todo]) ∧
  ids (edited "1" [("id", JStr "2")] [sample_todo; sample_wire_todo])
    = [JStr "2"; JStr "2"] ∧
  ¬ NoDup (ids (edited "1" [("id", JStr "2")] [sample_todo; sample_wire_todo])).
Proof.
  split; [|split; [reflexivity|]].
  - simpl. apply NoDup_cons. split; [|apply NoDup_singleton].
    intros Hin%list_elem_of_singleton. discriminate.
  - simpl. intros Hnd. apply NoDup_cons in Hnd as [Hnotin _].
    apply Hnotin. by apply list_elem_of_singleton.
Qed.

(** C6, amended: on a collection with pairwise distinct ids, [addTodo]
    with a generated id that is not in use, [editTodo] with updates that
    carry no [id] field, [toggleTodoCompletion] and [deleteTodo] all yield
    a collection with pairwise distinct ids, and every record still there
    has the id it had: editing and toggling leave the sequence of ids as it
    was, adding appends the new id, deleting drops the matching one. *)
Theorem C6_ids_stay_unique (todos : list JsValue) (op : Op) (now : Z) :
  NoDup (ids todos) →
  match op with
  | AddTodo uuid _ _ => JStr uuid ∉ ids todos
  | EditTodo _ updates => obj_has "id" updates = false
  | ToggleTodoCompletion _ | DeleteTodo _ => True
  end →
  NoDup (ids (next_contents op now todos)) ∧
  ids (next_contents op now todos) =
    match op with
    | AddTodo uuid _ _ => ids todos ++ [JStr uuid]
    | EditTodo _ _ | ToggleTodoCompletion _ => ids todos
    | DeleteTodo id => List.filter (fun v => negb (strict_eq_str v id)) (ids todos)
    end.
Proof.
  intros Hnd Hop. destruct op as [uuid title description|id updates|id|id]; simpl.
  - rewrite ids_added. split; [|done].
    apply NoDup_app. split; [done|]. split; [|apply NoDup_singleton].
    intros v Hv Hin%list_elem_of_singleton. by subst.
  - by rewrite ids_edited.
  - by rewrite ids_toggled.
  - rewrite ids_deleted. split; [|done]. by apply NoDup_list_filter.
Qed.

Lemma C6_ids_stay_unique_witness :
  NoDup (ids (added "3" "New" "" 5 [sample_todo; sample_wire_todo])) ∧
  ids (added "3" "New" "" 5 [sample_todo; sample_wire_todo])
    = [JStr "1"; JStr "2"; JStr "3"].
Proof.
  apply (C6_ids_stay_unique [sample_todo; sample_wire_todo] (AddTodo "3" "New" "") 5).
  - simpl. apply NoDup_cons. split; [|apply NoDup_singleton].
    intros Hin%list_elem_of_singleton. discriminate.
  - simpl. intros Hin. by repeat (apply elem_of_cons in Hin as [?|Hin]; [done|]);
      apply elem_of_nil in Hin.
Defined.

(** ** Toggling as a special case of editing *)

Section Toggle.
Context `{D : DateAPI} `{J : JSONAPI}.



End Toggle.

(** *** The state owner on the reference platform *)


(** C8 as the specification states it, refuted: after toggling an id that
    matches nothing the state is another array than before. *)
Lemma C8_toggle_unknown_id_new_reference :
  ∃ w',
    toggleTodoCompletion "missing" mounted_sample = Some w' ∧
    contents (todos w') = contents (todos mounted_sample) ∧
    ref (todos mounted_sample) = 0%nat ∧
    ref (todos w') = 1%nat ∧
    Object_is (todos w') (todos mounted_sample) = false.
Proof. eexists. split; [vm_compute; reflexivity|]. by repeat split. Qed.

Lemma C8_toggle_unknown_id_rewrites_witness :
  ∃ w',
    toggleTodoCompletion "missing" mounted_sample = Some w' ∧
    contents (todos w') = [sample_todo] ∧
    ref (todos w') ≠ 0%nat ∧
    saved w' = [[sample_todo]; [sample_todo]].
Proof.
  apply (C8_toggle_unknown_id_rewrites mounted_sample "missing").
  - unfold heap_ok. simpl. lia.
  - intros todo Hin. apply list_elem_of_singleton in Hin. by subst.
Defined.


(** What the toggle does to the sample: only [completed] changes. *)
Remark toggled_sample :
  toggled "1" [sample_todo; sample_wire_todo]
  = [JObj [("id", JStr "1"); ("title", JStr "Test Todo");
           ("description", JStr "Test Description"); ("completed", JBool true);
           ("createdAt", JDate (Some 1672531200000))];
     sample_wire_todo].
Proof. reflexivity. Qed.

(** Without the premise of a single flag, toggling and editing part ways:
    two records that share an id and differ in [completed] are each
    flipped by the toggle and made equal by the edit. *)
Remark toggle_differs_on_shared_id :
  let twin := JObj [("id", JStr "1"); ("completed", JBool true)] in
  let todos := [JObj [("id", JStr "1"); ("completed", JBool false)]; twin] in
  toggled "1" todos ≠ edited "1" [("completed", JBool true)] todos.
Proof. simpl. discriminate. Qed.

(** ** Notification identifiers *)

Lemma without_toast_app id l1 l2 :
  without_toast id (l1 ++ l2) = without_toast id l1 ++ without_toast id l2.
Proof. unfold without_toast. apply List.filter_app. Qed.

(** C9, the code at the failing input: two [showToast] calls made while
    [Date.now()] returns the same millisecond give both notifications the
    same [id], and dismissing that id removes the two of them. *)
Theorem C9_same_millisecond_same_id (w : World)
    (m1 m2 : string) (ty1 ty2 : option Toast.ToastType) (d1 d2 : option Z) :
  let w2 := showToast m2 ty2 d2 (showToast m1 ty1 d1 w) in
  ∃ t1 t2,
    toasts w2 = toasts w ++ [t1; t2] ∧
    Toast.message t1 = m1 ∧ Toast.message t2 = m2 ∧
    Toast.id t1 = Toast.id t2 ∧
    toasts (dismissToast (Toast.id t1) w2) = without_toast (Toast.id t1) (toasts w).
Proof.
  simpl. do 2 eexists. split.
  - unfold showToast. simpl. by rewrite <- app_assoc.
  - repeat split. unfold dismissToast, showToast. simpl.
    rewrite <- app_assoc, without_toast_app. simpl.
    rewrite String.eqb_refl. simpl. apply app_nil_r.
Qed.

(** The scheduled removal has the same reach: the timer of a short-lived
    notification takes a long-lived one shown in the same millisecond with
    it. *)
Remark timer_removes_the_other_toast :
  let w0 := mounted_sample in
  let w2 := showToast "second" (Some Toast.error) (Some 60000)
              (showToast "first" (Some Toast.warning) (Some 1000) w0) in
  length (toasts w2) = 2%nat ∧ toasts (advance 1000 w2) = [].
Proof. split; vm_compute; reflexivity. Qed.

(** Calls made at different clock readings do get different ids. *)
Remark showToast_ids_differ_across_time (w : World) (dt : Z) :
  dt ≠ 0 →
  Number_toString (clock w) ≠ Number_toString (clock (advance dt w)).
Proof.
  intros Hdt Heq. apply (inj pretty) in Heq.
  assert (clock (advance dt w) = clock w + dt) as Hc.
  { unfold advance.
    generalize (List.filter (fun tm : Z * string => Z.leb tm.1 (clock w + dt)) (timers w)).
    generalize (List.filter (fun tm : Z * string => negb (Z.leb tm.1 (clock w + dt)))
                  (timers w)).
    intros pending due.
    assert (∀ w', clock (fold_left
               (fun w tm => set_toasts (without_toast tm.2 (toasts w)) w) due w')
               = clock w') as Hfold.
    { induction due as [|tm due IH]; intros w'; simpl; [done|]. by rewrite IH. }
    by rewrite Hfold. }
  lia.
Qed.

(* ===================================================================== *)
(** * Further properties of the code *)
(* ===================================================================== *)

(** ** The storage adapter *)

Section AdapterFurther.
Context `{D : DateAPI} `{J : JSONAPI}.

(** The outcomes of [loadTodos], by what the store holds. *)
Lemma loadTodos_cases e :
  (∃ err, getItem_fault (sessionStorage e) = Some err ∧
          loadTodos e =
            (match removeItem_fault (sessionStorage e) with
             | None => with_items (delete STORAGE_KEY)
                         (logged [Warn WARN_LOAD_FAILED (Some err)] e)
             | Some _ => logged [Warn WARN_LOAD_FAILED (Some err)] e
             end, Normal [])) ∨
  (getItem_fault (sessionStorage e) = None ∧
   ((items (sessionStorage e) !! STORAGE_KEY = None ∨
     items (sessionStorage e) !! STORAGE_KEY = Some "") ∧
    loadTodos e = (e, Normal []) ∨
    ∃ raw, items (sessionStorage e) !! STORAGE_KEY = Some raw ∧ raw ≠ "" ∧
      (JSON_parse raw = None ∧
       loadTodos e =
         (match removeItem_fault (sessionStorage e) with
          | None => with_items (delete STORAGE_KEY)
                      (logged [Warn WARN_LOAD_FAILED
                                 (Some (SyntaxError "Unexpected token in JSON"))] e)
          | Some _ => logged [Warn WARN_LOAD_FAILED
                                (Some (SyntaxError "Unexpected token in JSON"))] e
          end, Normal []) ∨
       ∃ v, JSON_parse raw = Some v ∧
         (isValidTodos v = false ∧
          loadTodos e =
            (match removeItem_fault (sessionStorage e) with
             | None => with_items (delete STORAGE_KEY) (logged [Warn WARN_INVALID None] e)
             | Some err =>
                 logged [Warn WARN_INVALID None; Warn WARN_LOAD_FAILED (Some err)] e
             end, Normal []) ∨
          isValidTodos v = true ∧
          loadTodos e = (e, Normal (map reviveTodo (array_elems v))))))).
Proof.
  destruct (getItem_fault (sessionStorage e)) as [err|] eqn:Hget.
  { left. exists err. split; [done|]. by apply loadTodos_getItem_fault. }
  right. split; [done|].
  destruct (items (sessionStorage e) !! STORAGE_KEY) as [raw|] eqn:Hkey.
  2: { left. split; [by left|]. by apply loadTodos_absent. }
  destruct (decide (raw = "")) as [->|Hne].
  { left. split; [by right|]. by apply loadTodos_empty_string. }
  right. exists raw. split; [done|]. split; [done|].
  destruct (JSON_parse raw) as [v|] eqn:Hparse.
  2: { left. split; [done|]. by apply (loadTodos_unparseable e raw). }
  right. exists v. split; [done|].
  destruct (isValidTodos v) eqn:Hshape.
  - right. split; [done|]. by eapply loadTodos_valid.
  - left. split; [done|]. by eapply loadTodos_misshapen.
Qed.


Lemma isValidTodo_reviveTodo todo :
  isValidTodo todo = true →
  isValidTodo (reviveTodo todo) = true ∧
  instanceof_Date (get_prop (reviveTodo todo) "createdAt") = true.
Proof.
  intros (fields & -> & Hid & Hti & Hde & Hco & Hcr)%isValidTodo_shaped.
  unfold reviveTodo, get_prop. simpl own_props. split.
  - apply isValidTodo_shaped. eexists. split; [done|].
    rewrite !obj_get_set_ne by done. rewrite obj_get_set_eq.
    repeat split; try done.
    left. destruct Hcr as [[tv ->]|[s ->]]; eauto.
  - rewrite obj_get_set_eq. by destruct Hcr as [[tv ->]|[s ->]].
Qed.

(** X2: whatever [loadTodos] returns passes the shape predicate again, and
    every [createdAt] in it is a [Date]. *)
Theorem loadTodos_returns_valid_dates (e e' : Env) (loaded : list JsValue) :
  loadTodos e = (e', Normal loaded) →
  isValidTodos (JArr loaded) = true ∧
  Forall (fun todo => instanceof_Date (get_prop todo "createdAt") = true) loaded.
Proof.
  intros Hload.
  assert (loaded = [] ∨
          ∃ v, isValidTodos v = true ∧ loaded = map reviveTodo (array_elems v))
    as [->|(v & Hv & ->)].
  { destruct (loadTodos_cases e)
      as [(err & _ & H)|(_ & [(_ & H)|(raw & _ & _ &
            [(_ & H)|(v & _ & [(_ & H)|(Hv & H)])])])];
      rewrite H in Hload; inversion Hload; subst; eauto. }
  { split; [done|constructor]. }
  apply isValidTodos_array in Hv as (elems & -> & Hall). simpl.
  unfold isValidTodos. simpl. clear Hload.
  induction elems as [|todo rest IH]; [split; [done|constructor]|].
  simpl in Hall. apply andb_true_iff in Hall as [Htodo Hrest].
  destruct (IH Hrest) as [IH1 IH2].
  destruct (isValidTodo_reviveTodo todo Htodo) as [H1 H2].
  simpl. rewrite H1, IH1. split; [done|]. by constructor.
Qed.

(** X5: [loadTodos] and [saveTodos] read and write the one key: every other
    item of the store is as before. *)
Theorem adapter_touches_only_its_key (e : Env) (k : string) :
  k ≠ STORAGE_KEY →
  (∀ e' r, loadTodos e = (e', r) →
           items (sessionStorage e') !! k = items (sessionStorage e) !! k) ∧
  (∀ todos e' r, saveTodos todos e = (e', r) →
           items (sessionStorage e') !! k = items (sessionStorage e) !! k).
Proof.
  intros Hk. split.
  - intros e' r Hload.
    destruct (loadTodos_cases e)
      as [(err & _ & H)|(_ & [(_ & H)|(raw & _ & _ &
            [(_ & H)|(v & _ & [(_ & H)|(Hv & H)])])])];
      rewrite H in Hload; inversion Hload; subst; clear Hload; try done;
      destruct (removeItem_fault (sessionStorage e)); simpl; try done;
      by apply lookup_delete_ne.
  - intros todos e' r Hsave.
    destruct (write_attempt todos e) as [text|err] eqn:Hw.
    + erewrite saveTodos_ok in Hsave by done. inversion Hsave; subst. simpl.
      by apply lookup_insert_ne.
    + destruct (quota_exceeded_dec err).
      * erewrite saveTodos_quota in Hsave by done. by inversion Hsave; subst.
      * erewrite saveTodos_other_failure in Hsave by done. by inversion Hsave; subst.
Qed.

(** X4: loading settles the store: where the store serves reads and removals,
    a second [loadTodos] returns what the first returned and changes
    neither the store nor the console. *)
Theorem loadTodos_settles (e e1 : Env) (r : Completion (list JsValue)) :
  getItem_fault (sessionStorage e) = None →
  removeItem_fault (sessionStorage e) = None →
  loadTodos e = (e1, r) →
  loadTodos e1 = (e1, r).
Proof.
  intros Hget Hrm Hload.
  destruct (loadTodos_cases e)
    as [(err & Herr & _)|(_ & [(_ & H)|(raw & _ & _ &
          [(_ & H)|(v & _ & [(_ & H)|(Hv & H)])])])];
    [congruence|..]; rewrite H in Hload; inversion Hload; subst; clear Hload;
    try done; rewrite Hrm;
    apply loadTodos_absent; simpl; try done; apply lookup_delete_eq.
Qed.


(** X1: [loadTodos] never throws, whatever the store does.  When the read
    itself fails, the error is logged, the removal of the key is attempted,
    and the empty array is returned. *)
Theorem loadTodos_never_throws (e : Env) :
  ∃ e' loaded,
    loadTodos e = (e', Normal loaded) ∧
    ∀ err, getItem_fault (sessionStorage e) = Some err →
      loaded = [] ∧
      console e' = console e ++ [Warn WARN_LOAD_FAILED (Some err)] ∧
      items (sessionStorage e') =
        match removeItem_fault (sessionStorage e) with
        | None => delete STORAGE_KEY (items (sessionStorage e))
        | Some _ => items (sessionStorage e)
        end.
Proof.
  destruct (loadTodos_total e) as (e' & loaded & Hload).
  exists e', loaded. split; [done|]. intros err Herr.
  rewrite (loadTodos_getItem_fault e err Herr) in Hload.
  inversion Hload; subst; clear Hload.
  by destruct (removeItem_fault (sessionStorage e)).
Qed.

Lemma obj_set_keys k v fields :
  obj_get k fields ≠ JUndefined →
  map fst (obj_set k v fields) = map fst fields.
Proof.
  induction fields as [|[k' v'] rest IH]; simpl; [done|].
  destruct (String.eqb k' k) eqn:E; simpl.
  - apply String.eqb_eq in E. by subst.
  - intros H. by rewrite IH.
Qed.

(** X3: loading valid data leaves store and console alone and keeps every
    record as it is stored, extra fields included: same fields in the same
    order, same values, except that a [createdAt] string has become the
    [Date] it denotes. *)
Theorem loadTodos_keeps_records (e : Env) (raw : string) (elems : list JsValue) :
  getItem_fault (sessionStorage e) = None →
  items (sessionStorage e) !! STORAGE_KEY = Some raw →
  raw ≠ "" →
  JSON_parse raw = Some (JArr elems) →
  isValidTodos (JArr elems) = true →
  ∃ loaded,
    loadTodos e = (e, Normal loaded) ∧
    length loaded = length elems ∧
    ∀ i todo, elems !! i = Some todo →
      ∃ todo',
        loaded !! i = Some todo' ∧
        map fst (own_props todo') = map fst (own_props todo) ∧
        (∀ k, k ≠ "createdAt" → get_prop todo' k = get_prop todo k) ∧
        get_prop todo' "createdAt" =
          match get_prop todo "createdAt" with
          | JStr s => JDate (Date_parse s)
          | created => created
          end.
Proof.
  intros Hget Hkey Hne Hparse Hvalid.
  rewrite (loadTodos_valid e raw (JArr elems)) by done. simpl.
  eexists. split; [done|]. split; [apply length_map|].
  intros i todo Hi. rewrite list_lookup_fmap, Hi. simpl.
  eexists. split; [done|].
  assert (isValidTodo todo = true) as Htodo.
  { unfold isValidTodos in Hvalid. simpl in Hvalid.
    rewrite forallb_forall in Hvalid. apply Hvalid.
    apply list_elem_of_In. by eapply list_elem_of_lookup_2. }
  apply isValidTodo_shaped in Htodo as (fields & -> & _ & _ & _ & _ & Hcr).
  unfold reviveTodo, get_prop. simpl own_props. split; [|split].
  - apply obj_set_keys. by destruct Hcr as [[tv ->]|[s ->]].
  - intros k Hk. apply obj_get_set_ne. done.
  - rewrite obj_get_set_eq. by destruct Hcr as [[tv ->]|[s ->]].
Qed.

End AdapterFurther.

(** ** The operations on the collection *)

Lemma strict_eq_str_obj v id :
  strict_eq_str (get_prop v "id") id = true → ∃ fields, v = JObj fields.
Proof. destruct v; try discriminate. eauto. Qed.

Lemma deleted_elem id todos todo :
  todo ∈ deleted id todos ↔
  todo ∈ todos ∧ strict_eq_str (get_prop todo "id") id = false.
Proof.
  unfold deleted. rewrite !list_elem_of_In, filter_In, negb_true_iff. done.
Qed.

(** X10: [deleteTodo]: what is left are the records with another id, in the
    order they had; deleting again changes nothing, deleting an unknown id
    changes nothing, and deletions of different ids commute. *)
Theorem deleted_spec (id : string) (todos : list JsValue) :
  (∀ todo, todo ∈ deleted id todos ↔
           todo ∈ todos ∧ strict_eq_str (get_prop todo "id") id = false) ∧
  sublist (deleted id todos) todos ∧
  deleted id (deleted id todos) = deleted id todos ∧
  ((∀ todo, todo ∈ todos → strict_eq_str (get_prop todo "id") id = false) →
   deleted id todos = todos) ∧
  (∀ id', deleted id (deleted id' todos) = deleted id' (deleted id todos)).
Proof.
  split; [intros; apply deleted_elem|]. split; [|split; [|split]].
  - unfold deleted. induction todos as [|todo rest IH]; simpl; [done|].
    destruct (negb _); [by apply sublist_skip|by apply sublist_cons].
  - unfold deleted. induction todos as [|todo rest IH]; simpl; [done|].
    destruct (negb _) eqn:E; simpl; [by rewrite E, IH|done].
  - intros Hno. unfold deleted.
    induction todos as [|todo rest IH]; simpl; [done|].
    rewrite (Hno todo) by left. simpl. rewrite IH; [done|].
    intros t Ht. apply Hno. by right.
  - intros id'. unfold deleted.
    induction todos as [|todo rest IH]; simpl; [done|].
    destruct (negb (strict_eq_str (get_prop todo "id") id')) eqn:E1;
      destruct (negb (strict_eq_str (get_prop todo "id") id)) eqn:E2;
      simpl; rewrite ?E1, ?E2, IH; done.
Qed.

Lemma obj_has_false k fields : obj_has k fields = false ↔ k ∉ map fst fields.
Proof.
  unfold obj_has. induction fields as [|[k' v'] rest IH]; simpl.
  - split; [intros _ H; by apply elem_of_nil in H|done].
  - rewrite orb_false_iff, IH, not_elem_of_cons, String.eqb_neq.
    split; intros [H1 H2]; split; auto.
Qed.

Lemma obj_get_spread_present updates : ∀ k base,
  NoDup (map fst updates) →
  obj_has k updates = true →
  obj_get k (spread base updates) = obj_get k updates.
Proof.
  induction updates as [|[k' v'] rest IH]; intros k base Hnd Hhas; [done|].
  apply NoDup_cons in Hnd as [Hk' Hnd].
  change (spread base ((k', v') :: rest)) with (spread (obj_set k' v' base) rest).
  simpl in *. destruct (String.eqb k' k) eqn:E.
  - apply String.eqb_eq in E. subst k'.
    rewrite obj_get_spread_absent by (by apply obj_has_false).
    apply obj_get_set_eq.
  - by apply IH.
Qed.

Lemma edited_nth id updates todos i todo :
  todos !! i = Some todo →
  edited id updates todos !! i =
    Some (if strict_eq_str (get_prop todo "id") id
          then JObj (spread (own_props todo) updates) else todo).
Proof. intros Hi. unfold edited. by rewrite list_lookup_fmap, Hi. Qed.

(** X7: [editTodo] is a shallow merge: in the record that matches, a field
    present in [updates] takes the value given there and every other field
    keeps its value; a record that does not match is the same record; the
    collection keeps its length.  With no field in [updates], the records
    are those of the old collection. *)
Theorem edited_merges (id : string) (updates : list (string * JsValue))
    (todos : list JsValue) :
  NoDup (map fst updates) →
  length (edited id updates todos) = length todos ∧
  (∀ i todo, todos !! i = Some todo →
     ∃ todo',
       edited id updates todos !! i = Some todo' ∧
       if strict_eq_str (get_prop todo "id") id
       then ∀ k, get_prop todo' k =
                 if obj_has k updates then obj_get k updates else get_prop todo k
       else todo' = todo) ∧
  (updates = [] → edited id updates todos = todos).
Proof.
  intros Hnd. split; [apply length_map|]. split.
  - intros i todo Hi. rewrite (edited_nth _ _ _ _ _ Hi). eexists. split; [done|].
    destruct (strict_eq_str _ _); [|done].
    intros k. unfold get_prop at 1. simpl own_props.
    destruct (obj_has k updates) eqn:Hhas.
    + by apply obj_get_spread_present.
    + by apply obj_get_spread_absent.
  - intros ->. unfold edited. rewrite <- (map_id todos) at 2.
    apply map_ext. intros todo.
    destruct (strict_eq_str _ _) eqn:E; [|done].
    by apply strict_eq_str_obj in E as [fields ->].
Qed.

(** X8: two edits of the same id amount to one edit with the later updates
    merged over the earlier ones, as long as the first does not touch the
    id. *)
Theorem edited_twice (id : string) (u1 u2 : list (string * JsValue))
    (todos : list JsValue) :
  obj_has "id" u1 = false →
  edited id u2 (edited id u1 todos) = edited id (u1 ++ u2) todos.
Proof.
  intros Hid. unfold edited. rewrite map_map. apply map_ext. intros todo.
  destruct (strict_eq_str (get_prop todo "id") id) eqn:E.
  - assert (get_prop (JObj (spread (own_props todo) u1)) "id" = get_prop todo "id")
      as -> by (by apply obj_get_spread_absent).
    rewrite E. simpl own_props. unfold spread. by rewrite fold_left_app.
  - by rewrite E.
Qed.

Lemma obj_set_same k fields :
  obj_has k fields = true → obj_set k (obj_get k fields) fields = fields.
Proof.
  induction fields as [|[k' v'] rest IH]; simpl; [done|].
  destruct (String.eqb k' k) eqn:E; simpl.
  - apply String.eqb_eq in E. by subst.
  - intros H. by rewrite IH.
Qed.

Lemma obj_set_twice k v1 v2 fields :
  obj_set k v2 (obj_set k v1 fields) = obj_set k v2 fields.
Proof.
  induction fields as [|[k' v'] rest IH]; simpl.
  - by rewrite String.eqb_refl.
  - destruct (String.eqb k' k) eqn:E; simpl.
    + by rewrite String.eqb_refl.
    + by rewrite E, IH.
Qed.

Lemma obj_get_defined_has k fields :
  obj_get k fields ≠ JUndefined → obj_has k fields = true.
Proof.
  destruct (obj_has k fields) eqn:E; [done|].
  apply obj_has_false in E. intros H. exfalso. apply H. clear H.
  induction fields as [|[k' v'] rest IH]; simpl in *; [done|].
  apply not_elem_of_cons in E as [Hne E].
  assert (String.eqb k' k = false) as -> by (apply String.eqb_neq; auto).
  auto.
Qed.

(** X9: on a collection that passes the shape predicate, toggling the same id
    twice gives the collection back. *)
Theorem toggled_twice (id : string) (todos : list JsValue) :
  isValidTodos (JArr todos) = true →
  toggled id (toggled id todos) = todos.
Proof.
  intros Hvalid. unfold isValidTodos in Hvalid. simpl in Hvalid.
  unfold toggled. rewrite map_map. rewrite <- (map_id todos) at 2.
  apply map_ext_Forall. apply forallb_isValidTodo in Hvalid.
  eapply Forall_impl; [done|].
  intros todo (fields & -> & _ & _ & _ & [b Hb] & _). simpl.
  destruct (strict_eq_str (get_prop (JObj fields) "id") id) eqn:E; [|by rewrite E].
  unfold get_prop in *. simpl own_props in *.
  rewrite obj_get_set_ne by done. rewrite E.
  rewrite obj_get_set_eq, Hb. simpl. rewrite negb_involutive.
  rewrite obj_set_twice, <- Hb. f_equal. apply obj_set_same.
  apply obj_get_defined_has. by rewrite Hb.
Qed.

Lemma spread_lookup_cases k updates : ∀ base,
  obj_get k (spread base updates) = obj_get k base ∨
  ∃ v, (k, v) ∈ updates ∧ obj_get k (spread base updates) = v.
Proof.
  induction updates as [|[k' v'] rest IH]; intros base; [by left|].
  change (spread base ((k', v') :: rest)) with (spread (obj_set k' v' base) rest).
  destruct (IH (obj_set k' v' base)) as [Heq|(v & Hin & Heq)].
  - rewrite Heq. destruct (decide (k = k')) as [->|Hne].
    + right. exists v'. split; [left|apply obj_get_set_eq].
    + left. by apply obj_get_set_ne.
  - right. exists v. split; [by right|done].
Qed.

Lemma todo_shaped_edited fields updates :
  todo_shaped (JObj fields) →
  Forall (fun kv => update_typed kv = true) updates →
  todo_shaped (JObj (spread fields updates)).
Proof.
  intros (fs & Heq & Hid & Hti & Hde & Hco & Hcr) Hty.
  inversion Heq; subst fs; clear Heq.
  eexists. split; [done|].
  assert (Hupd : ∀ k v, (k, v) ∈ updates → update_typed (k, v) = true).
  { intros k v Hin. by eapply Forall_forall in Hty. }
  repeat split.
  - destruct (spread_lookup_cases "id" updates fields) as [->|(v & Hin & ->)]; [done|].
    apply Hupd in Hin. by apply typeof_string_iff in Hin.
  - destruct (spread_lookup_cases "title" updates fields) as [->|(v & Hin & ->)]; [done|].
    apply Hupd in Hin. by apply typeof_string_iff in Hin.
  - destruct (spread_lookup_cases "description" updates fields)
      as [->|(v & Hin & ->)]; [done|].
    apply Hupd in Hin. by apply typeof_string_iff in Hin.
  - destruct (spread_lookup_cases "completed" updates fields)
      as [->|(v & Hin & ->)]; [done|].
    apply Hupd in Hin. by apply typeof_boolean_iff in Hin.
  - destruct (spread_lookup_cases "createdAt" updates fields)
      as [->|(v & Hin & ->)]; [done|].
    apply Hupd in Hin. unfold update_typed in Hin. simpl in Hin.
    apply orb_true_iff in Hin as [H|H].
    + left. by apply instanceof_Date_iff.
    + right. by apply typeof_string_iff.
Qed.

Lemma todo_shaped_toggled fields b :
  todo_shaped (JObj fields) →
  todo_shaped (JObj (obj_set "completed" (JBool b) fields)).
Proof.
  intros (fs & Heq & Hid & Hti & Hde & Hco & Hcr).
  inversion Heq; subst fs; clear Heq.
  eexists. split; [done|].
  rewrite (obj_get_set_ne "id"), (obj_get_set_ne "title"),
    (obj_get_set_ne "description"), (obj_get_set_ne "createdAt") by done.
  rewrite obj_get_set_eq. repeat split; eauto.
Qed.

(** X11: the shape predicate is an invariant of the state owner: a collection
    that passes it still passes it after [addTodo], [toggleTodoCompletion]
    and [deleteTodo], and after [editTodo] with updates of the declared
    types; so what these operations save can be loaded again. *)
Theorem operations_keep_shape (op : Op) (now : Z) (todos : list JsValue) :
  isValidTodos (JArr todos) = true →
  op_typed op →
  isValidTodos (JArr (next_contents op now todos)) = true.
Proof.
  unfold isValidTodos. simpl. rewrite !forallb_isValidTodo.
  intros Hvalid Hop. destruct op as [uuid title description|id updates|id|id]; simpl.
  - apply Forall_app. split; [done|]. constructor; [|constructor].
    by apply isValidTodo_shaped.
  - unfold edited. apply Forall_map. eapply Forall_impl; [done|].
    intros todo Hshape. simpl. destruct (strict_eq_str _ _); [|done].
    destruct Hshape as (fields & -> & Hrest).
    apply todo_shaped_edited; [|done]. by exists fields.
  - unfold toggled. apply Forall_map. eapply Forall_impl; [done|].
    intros todo Hshape. simpl. destruct (strict_eq_str _ _); [|done].
    destruct Hshape as (fields & -> & Hrest).
    apply todo_shaped_toggled. by exists fields.
  - unfold deleted. apply Forall_forall. intros todo Hin.
    apply list_elem_of_In, filter_In in Hin as [Hin _].
    eapply Forall_forall in Hvalid; [done|]. by apply list_elem_of_In.
Qed.

(** ** The state owner and its effect *)

Section OwnerFurther.
Context `{D : DateAPI} `{J : JSONAPI}.

Lemma run_persist op w :
  heap_ok w → run op w = persist (rendered op w).
Proof.
  intros Hok. unfold heap_ok in Hok.
  assert (run op w =
          setTodos {| ref := next_ref w;
                      contents := next_contents op (clock w) (contents (todos w)) |}
            (new_array (next_contents op (clock w) (contents (todos w))) w).2)
    as -> by (by destruct op).
  unfold setTodos, Object_is. simpl.
  assert (Nat.eqb (next_ref w) (ref (todos w)) = false) as ->
    by (apply Nat.eqb_neq; lia).
  done.
Qed.

Lemma persist_written w text :
  write_attempt (contents (todos w)) (env w) = Normal text →
  persist w =
    Some (log_save (contents (todos w))
            (set_env (with_items (insert STORAGE_KEY text) (env w)) w)).
Proof.
  intros Hw. unfold persist. by rewrite (saveTodos_ok _ _ text Hw).
Qed.

Lemma persist_refused w err :
  write_attempt (contents (todos w)) (env w) = Throw err →
  ∃ msg entry,
    ((quota_exceeded err ∧ msg = MSG_QUOTA) ∨
     (¬ quota_exceeded err ∧ msg = MSG_SAVE_FAILED)) ∧
    persist w =
      Some (showToast msg (Some Toast.warning) None
              (log_save (contents (todos w))
                 (set_env (logged [entry] (env w)) w))).
Proof.
  intros Hw. unfold persist. destruct (quota_exceeded_dec err) as [Hq|Hq].
  - rewrite (saveTodos_quota _ _ err Hw Hq). do 2 eexists. split; [by left|done].
  - rewrite (saveTodos_other_failure _ _ err Hw Hq).
    do 2 eexists. split; [by right|done].
Qed.


(** X13: when the write of the new collection fails, the operation still takes
    effect in memory (no rollback), the store keeps what it held, and the
    adapter's message is shown as one new warning toast of the default
    duration. *)
Theorem failed_write_is_shown (op : Op) (w : World) (err : JsError) :
  heap_ok w →
  write_attempt (next_contents op (clock w) (contents (todos w))) (env w) = Throw err →
  ∃ w' msg,
    run op w = Some w' ∧
    contents (todos w') = next_contents op (clock w) (contents (todos w)) ∧
    items (sessionStorage (env w')) = items (sessionStorage (env w)) ∧
    ((quota_exceeded err ∧ msg = MSG_QUOTA) ∨
     (¬ quota_exceeded err ∧ msg = MSG_SAVE_FAILED)) ∧
    toasts w' =
      toasts w ++ [{| Toast.id := Number_toString (clock w); Toast.message := msg;
                      Toast.type := Toast.warning; Toast.duration := 5000 |}] ∧
    timers w' = timers w ++ [(clock w + 5000, Number_toString (clock w))].
Proof.
  intros Hok Hw. rewrite run_persist by done.
  destruct (persist_refused (rendered op w) err Hw) as (msg & entry & Hmsg & ->).
  eexists. exists msg. split; [done|]. by repeat split.
Qed.

(** X12: when the write succeeds, the store holds the text of the collection
    now in memory, and no toast is shown. *)
Theorem successful_write_mirrors_state (op : Op) (w : World) (text : string) :
  heap_ok w →
  write_attempt (next_contents op (clock w) (contents (todos w))) (env w)
    = Normal text →
  ∃ w',
    run op w = Some w' ∧
    JSON_stringify (JArr (contents (todos w'))) = Normal text ∧
    items (sessionStorage (env w')) !! STORAGE_KEY = Some text ∧
    toasts w' = toasts w ∧
    console (env w') = console (env w).
Proof.
  intros Hok Hw. rewrite run_persist by done.
  rewrite (persist_written (rendered op w) text Hw).
  eexists. split; [done|]. simpl. repeat split; try done.
  - unfold write_attempt in Hw.
    by destruct (JSON_stringify _); [destruct (setItem_fault _)|].
  - apply lookup_insert_eq.
Qed.

(** X6: [addTodo] appends one record and leaves the others where they are: the
    new collection is the old one followed by a record with the generated
    id, the given title and description, [completed] false and the current
    time, which passes the shape predicate; and the collection is written
    once. *)
Theorem addTodo_appends (uuid title description : string) (w : World) :
  heap_ok w →
  ∃ w' todo,
    addTodo uuid title description w = Some w' ∧
    contents (todos w') = contents (todos w) ++ [todo] ∧
    get_prop todo "id" = JStr uuid ∧
    get_prop todo "title" = JStr title ∧
    get_prop todo "description" = JStr description ∧
    get_prop todo "completed" = JBool false ∧
    get_prop todo "createdAt" = JDate (Some (clock w)) ∧
    valid_todo todo ∧
    saved w' = saved w ++ [contents (todos w) ++ [todo]].
Proof.
  intros Hok.
  destruct (run_spec (AddTodo uuid title description) w Hok)
    as (w' & Hrun & Htodos & Hsaved & _).
  exists w', (newTodo uuid title description (clock w)).
  rewrite Hsaved, Htodos. simpl. repeat split; try done.
  eexists. split; [reflexivity|]. split; [|split].
  - by apply (bool_decide_unpack _).
  - repeat constructor.
  - repeat constructor.
Qed.

(** X14: no sequence of operations crashes the application, whatever the store
    does: each operation takes effect, [saveTodos] is called once for the
    mount and once per operation, and the last call carries the collection
    that is in memory. *)
Theorem operations_never_crash (e : Env) (now : Z) (ops : list Op) :
  ∃ w w',
    mount e now = Some w ∧
    run_all ops w = Some w' ∧
    contents (todos w') = contents_after ops now (contents (todos w)) ∧
    length (saved w') = S (length ops) ∧
    last (saved w') = Some (contents (todos w')).
Proof.
  destruct (mount_spec e now)
    as (e' & loaded & w & _ & Hmount & Htodos & Hsaved & Hclock & Hok).
  exists w.
  assert (Hgen : ∀ ops w,
    heap_ok w → last (saved w) = Some (contents (todos w)) →
    ∃ w', run_all ops w = Some w' ∧
          contents (todos w') = contents_after ops (clock w) (contents (todos w)) ∧
          length (saved w') = (length (saved w) + length ops)%nat ∧
          last (saved w') = Some (contents (todos w'))).
  { clear. intros ops. induction ops as [|op rest IH]; intros w Hok Hlast.
    - exists w. simpl. repeat split; (done || lia).
    - destruct (run_spec op w Hok) as (w1 & Hrun & Htodos & Hsaved & Hclock & Hok1).
      destruct (IH w1 Hok1) as (w' & Hall & Hc & Hlen & Hlast').
      { rewrite Hsaved. apply last_snoc. }
      exists w'. simpl. rewrite Hrun. split; [done|]. split; [|split; [|done]].
      + by rewrite Hc, Hclock, Htodos.
      + rewrite Hlen, Hsaved, length_app. simpl. lia. }
  destruct (Hgen ops w Hok) as (w' & Hall & Hc & Hlen & Hlast).
  { by rewrite Hsaved, Htodos. }
  exists w'. split; [done|]. split; [done|]. split; [by rewrite Hc, Hclock|].
  split; [|done]. by rewrite Hlen, Hsaved.
Qed.

Lemma enqueue_all render ops : ∀ acc,
  todos (fold_left (enqueue render) ops acc).2 = todos acc.2 ∧
  (next_ref acc.2 ≤ next_ref (fold_left (enqueue render) ops acc).2)%nat.
Proof.
  induction ops as [|o rest IH]; intros acc; simpl; [done|].
  destruct (IH (enqueue render acc o)) as (H1 & H2).
  rewrite H1. unfold enqueue in *. simpl in *. split; [done|lia].
Qed.

Lemma run_batch_snoc ops op w :
  ∃ w1,
    run_batch (ops ++ [op]) w =
      setTodos {| ref := next_ref w1;
                  contents := next_contents op (clock w) (contents (todos w)) |}
        (new_array (next_contents op (clock w) (contents (todos w))) w1).2 ∧
    todos w1 = todos w ∧ (next_ref w ≤ next_ref w1)%nat.
Proof.
  unfold run_batch. rewrite fold_left_app. simpl.
  destruct (enqueue_all w ops (None, w)) as (H1 & H2).
  destruct (fold_left (enqueue w) ops (None, w)) as [last w1]. simpl in *.
  exists w1. by repeat split.
Qed.

(** X15: operations issued by one event handler do not add up: each works on
    the collection of the render it was created in, so after the handler
    the collection is what the last operation alone makes of it, and the
    earlier ones are lost.  A handler that issues a single operation is
    that operation. *)
Theorem batch_keeps_last_operation (ops : list Op) (op : Op) (w : World) :
  heap_ok w →
  (∃ w', run_batch (ops ++ [op]) w = Some w' ∧
         contents (todos w') = next_contents op (clock w) (contents (todos w))) ∧
  run_batch [op] w = run op w.
Proof.
  intros Hok. split.
  - destruct (run_batch_snoc ops op w) as (w1 & -> & Htodos & Hnext).
    destruct (setTodos_fresh
                {| ref := next_ref w1;
                   contents := next_contents op (clock w) (contents (todos w)) |}
                (new_array (next_contents op (clock w) (contents (todos w))) w1).2)
      as (w' & Hset & Ht & _).
    { simpl. rewrite Htodos. unfold heap_ok in Hok. lia. }
    exists w'. by rewrite Hset, Ht.
  - by destruct op.
Qed.

End OwnerFurther.

(** ** A session on the reference platform *)

Lemma obj_has_keys k fields : obj_has k fields = true ↔ k ∈ map fst fields.
Proof.
  destruct (obj_has k fields) eqn:E.
  - split; [intros _|done]. destruct (decide (k ∈ map fst fields)); [done|].
    apply obj_has_false in n. congruence.
  - apply obj_has_false in E. split; [done|]. intros; contradiction.
Qed.

Lemma obj_set_keys_has k v fields :
  obj_has k fields = true → map fst (obj_set k v fields) = map fst fields.
Proof.
  unfold obj_has. induction fields as [|[k' v'] rest IH]; simpl; [done|].
  destruct (String.eqb k' k) eqn:E; simpl.
  - apply String.eqb_eq in E. by subst.
  - intros H. by rewrite IH.
Qed.

Lemma Forall_obj_set (P : string * JsValue → Prop) k v fields :
  Forall P fields → P (k, v) → Forall P (obj_set k v fields).
Proof.
  intros Hall Hkv. induction Hall as [|[k' v'] rest Hx Hrest IH]; simpl.
  - by constructor.
  - destruct (String.eqb k' k); by constructor.
Qed.

Lemma field_typed_key k v :
  field_typed k v = true → k ∈ TODO_FIELDS.
Proof.
  unfold TODO_FIELDS.
  destruct v as [| | | | |[?|]| |]; simpl; try discriminate;
    rewrite ?orb_true_iff, !String.eqb_eq; intros H;
    repeat (destruct H as [H|H]); subst; set_solver.
Qed.

Lemma dated_todo_fields todo :
  dated_todo todo ↔ ∃ fields, todo = JObj fields ∧ dated_fields fields.
Proof.
  unfold dated_todo, valid_todo, dated_fields, get_prop. split.
  - intros [(fields & -> & H1 & H2 & H3) H4]. exists fields. simpl in *. tauto.
  - intros (fields & -> & H1 & H2 & H3 & H4). simpl. split; [|done].
    exists fields. tauto.
Qed.

Lemma dated_fields_set k v fields :
  dated_fields fields →
  field_typed k v = true → k ≠ "createdAt" →
  dated_fields (obj_set k v fields).
Proof.
  intros (Hnd & Hhas & Hty & Hdate) Hkv Hk.
  assert (obj_has k fields = true) as Hpresent.
  { apply field_typed_key in Hkv.
    rewrite Forall_forall in Hhas. by apply Hhas. }
  assert (map fst (obj_set k v fields) = map fst fields) as Hkeys
    by (by apply obj_set_keys_has).
  split; [by rewrite Hkeys|]. split; [|split].
  - eapply Forall_impl; [done|]. intros k' Hk'. simpl in *.
    apply obj_has_keys. rewrite Hkeys. by apply obj_has_keys.
  - by apply Forall_obj_set.
  - by rewrite obj_get_set_ne.
Qed.

Lemma dated_fields_spread updates : ∀ fields,
  dated_fields fields →
  Forall (fun kv => field_typed kv.1 kv.2 = true ∧ kv.1 ≠ "createdAt") updates →
  dated_fields (spread fields updates).
Proof.
  induction updates as [|[k v] rest IH]; intros fields Hf Hu; [done|].
  apply Forall_cons_1 in Hu as [(Hty & Hk) Hu]. simpl in *.
  change (spread fields ((k, v) :: rest)) with (spread (obj_set k v fields) rest).
  apply IH; [|done]. by apply dated_fields_set.
Qed.

(** The operations of the UI keep the todos dated. *)
Lemma operations_keep_dated op now todos :
  Forall dated_todo todos → op_plain now op →
  Forall dated_todo (next_contents op now todos).
Proof.
  intros Hall Hop. destruct op as [uuid title description|id updates|id|id]; simpl.
  - apply Forall_app. split; [done|]. constructor; [|constructor].
    apply dated_todo_fields. eexists. split; [reflexivity|].
    split; [by apply (bool_decide_unpack _)|].
    split; [repeat constructor|]. split; [repeat constructor|].
    exists now. by split.
  - unfold edited. apply Forall_map. eapply Forall_impl; [done|].
    intros todo Htodo. simpl. destruct (strict_eq_str _ _); [|done].
    apply dated_todo_fields in Htodo as (fields & -> & Hf).
    apply dated_todo_fields. eexists. split; [done|].
    by apply dated_fields_spread.
  - unfold toggled. apply Forall_map. eapply Forall_impl; [done|].
    intros todo Htodo. simpl. destruct (strict_eq_str _ _); [|done].
    apply dated_todo_fields in Htodo as (fields & -> & Hf).
    apply dated_todo_fields. eexists. split; [done|].
    by apply dated_fields_set.
  - unfold deleted. apply Forall_forall. intros todo Hin.
    apply list_elem_of_In, filter_In in Hin as [Hin _].
    eapply Forall_forall in Hall; [done|]. by apply list_elem_of_In.
Qed.

Lemma dated_todos_valid todos :
  Forall dated_todo todos →
  Forall valid_todo todos ∧
  (∀ t, created_instant todos t → Reference.time_value t) ∧
  Forall (fun todo => ∃ t, get_prop todo "createdAt" = JDate (Some t)) todos.
Proof.
  intros Hall. split; [|split].
  - eapply Forall_impl; [done|]. by intros ? [? _].
  - intros t (todo & Hin & Ht). eapply Forall_forall in Hall; [|done].
    destruct Hall as [_ (t' & Ht' & Htime)]. congruence.
  - eapply Forall_impl; [done|]. intros ? [_ (t & Ht & _)]. eauto.
Qed.

(** What the store holds is what [loadTodos] returns. *)
Lemma loadTodos_store_holds e todos :
  getItem_fault (sessionStorage e) = None →
  store_holds e todos → Forall dated_todo todos →
  loadTodos e = (e, Normal todos).
Proof.
  intros Hget Hstore Hall.
  destruct (dated_todos_valid todos Hall) as (Hvalid & Htime & Hdates).
  erewrite loadTodos_valid;
    [| done | apply Hstore
     | by rewrite toJSON_valid_todos, ReferenceLaws.print_array
     | by apply ReferenceLaws.parse_print_valid_todos | by apply isValidTodos_wire].
  f_equal. f_equal. rewrite toJSON_valid_todos by done. simpl.
  rewrite map_map. rewrite <- (map_id todos) at 2. apply map_ext_Forall, Forall_forall.
  intros item Hin. rewrite valid_todo_revived.
  - apply normalise_createdAt_date.
    + by eapply Forall_forall in Hvalid.
    + by eapply Forall_forall in Hdates.
  - by eapply Forall_forall in Hvalid.
  - intros t Ht. apply ReferenceLaws.parseISO_toISOString, Htime. by exists item.
Qed.

Lemma persist_healthy w :
  no_faults (env w) →
  ∃ w', persist w = Some w' ∧
        no_faults (env w') ∧ store_holds (env w') (contents (todos w)) ∧
        todos w' = todos w ∧ next_ref w' = next_ref w ∧ clock w' = clock w ∧
        toasts w' = toasts w ∧ console (env w') = console (env w).
Proof.
  intros (Hget & Hset & Hrm).
  rewrite (persist_written w (Reference.print (toJSON (JArr (contents (todos w)))))).
  - eexists. split; [done|]. unfold no_faults, store_holds. simpl.
    repeat split; try done. apply lookup_insert_eq.
  - unfold write_attempt.
    change (JSON_stringify (JArr (contents (todos w))))
      with (Normal (Reference.print (toJSON (JArr (contents (todos w)))))).
    by rewrite Hset.
Qed.

Lemma run_in_step op w :
  in_step w → op_plain (clock w) op →
  ∃ w', run op w = Some w' ∧ in_step w' ∧ clock w' = clock w.
Proof.
  intros (Hnf & Hok & Hall & Hstore & Htoasts & Hlog) Hop.
  rewrite (run_persist op w Hok).
  destruct (persist_healthy (rendered op w) Hnf)
    as (w' & -> & Hnf' & Hstore' & Htodos & Hnext & Hclock & Htoasts' & Hlog').
  exists w'. split; [done|]. split; [|done].
  unfold in_step, heap_ok. rewrite Htodos, Hnext, Htoasts', Hlog'. simpl.
  repeat split; try done; try apply Hnf'.
  - lia.
  - by apply operations_keep_dated.
Qed.

Lemma run_all_in_step ops : ∀ w,
  in_step w → Forall (op_plain (clock w)) ops →
  ∃ w', run_all ops w = Some w' ∧ in_step w'.
Proof.
  induction ops as [|op rest IH]; intros w Hw Hops.
  - by exists w.
  - apply Forall_cons_1 in Hops as [Hop Hrest].
    destruct (run_in_step op w Hw Hop) as (w1 & Hrun & Hw1 & Hclock).
    destruct (IH w1 Hw1) as (w' & Hall & Hw'); [by rewrite Hclock|].
    exists w'. simpl. by rewrite Hrun.
Qed.

Lemma mount_in_step e now stored :
  no_faults e → console e = [] →
  (items (sessionStorage e) !! STORAGE_KEY = None ∧ stored = [] ∨
   store_holds e stored ∧ Forall dated_todo stored) →
  ∃ w, mount e now = Some w ∧ in_step w ∧ clock w = now ∧
       contents (todos w) = stored.
Proof.
  intros Hnf Hlog Hstore.
  assert (loadTodos e = (e, Normal stored) ∧ Forall dated_todo stored) as [Hload Hall].
  { destruct Hstore as [[Habs ->]|[Hst Hall]].
    - split; [|done]. apply loadTodos_absent; [apply Hnf|done].
    - split; [|done]. apply loadTodos_store_holds; [apply Hnf|done..]. }
  unfold mount. rewrite Hload.
  match goal with |- context [persist ?w0] =>
    destruct (persist_healthy w0 Hnf)
      as (w & -> & Hnf' & Hstore' & Htodos & Hnext & Hclock & Htoasts & Hlog')
  end.
  exists w. simpl in *. split; [done|]. split; [|by rewrite Htodos].
  unfold in_step, heap_ok. rewrite Htodos, Hnext, Htoasts, Hlog'. simpl.
  repeat split; try done; try apply Hnf'. lia.
Qed.

(** X16: a session on a store that answers, on the reference platform: the
    application mounts on an empty store or on one that holds a collection
    of dated todos, the user adds, edits, toggles and deletes, and the tab
    is reloaded.  Nothing was logged and no warning shown, and the reloaded
    application holds exactly the collection that was in memory. *)
Theorem reload_restores_the_collection
    (e : Env) (stored : list JsValue) (now : Z) (ops : list Op) (later : Z) :
  no_faults e → console e = [] →
  (items (sessionStorage e) !! STORAGE_KEY = None ∧ stored = [] ∨
   store_holds e stored ∧ Forall dated_todo stored) →
  Forall (op_plain now) ops →
  ∃ w w' w'',
    mount e now = Some w ∧ contents (todos w) = stored ∧
    run_all ops w = Some w' ∧
    toasts w' = [] ∧ console (env w') = [] ∧
    mount (env w') later = Some w'' ∧
    contents (todos w'') = contents (todos w').
Proof.
  intros Hnf Hlog Hstore Hops.
  destruct (mount_in_step e now stored Hnf Hlog Hstore) as (w & Hmount & Hw & Hclock & Hc).
  destruct (run_all_in_step ops w Hw) as (w' & Hall & Hw'); [by rewrite Hclock|].
  destruct Hw' as (Hnf' & _ & Hdated & Hst & Htoasts & Hlog').
  destruct (mount_in_step (env w') later (contents (todos w')) Hnf' Hlog')
    as (w'' & Hmount' & _ & _ & Hc'); [by right|].
  exists w, w', w''. by repeat split.
Qed.

(** ** Notifications *)

Lemma without_toast_elem id t l :
  t ∈ without_toast id l ↔ t ∈ l ∧ Toast.id t ≠ id.
Proof.
  unfold without_toast. rewrite !list_elem_of_In, filter_In, negb_true_iff.
  by rewrite String.eqb_neq.
Qed.

Lemma without_toast_none id l :
  (∀ t, t ∈ l → Toast.id t ≠ id) → without_toast id l = l.
Proof.
  intros H. unfold without_toast. induction l as [|t l IH]; simpl; [done|].
  assert (String.eqb (Toast.id t) id = false) as ->
    by (apply String.eqb_neq, H; left).
  simpl. rewrite IH; [done|]. intros t' Ht'. apply H. by right.
Qed.

Lemma without_toast_comm id id' l :
  without_toast id (without_toast id' l) = without_toast id' (without_toast id l).
Proof.
  unfold without_toast. induction l as [|t l IH]; simpl; [done|].
  destruct (String.eqb (Toast.id t) id') eqn:E1,
           (String.eqb (Toast.id t) id) eqn:E2; simpl;
    rewrite ?E1, ?E2; simpl; by rewrite ?IH.
Qed.

(** X18: [dismissToast(id)] removes the toasts that carry [id] and no other,
    keeps the order of the others, and changes nothing when no toast
    carries [id]; dismissing twice is dismissing once, and dismissals
    commute.  The timer of a dismissed toast is not cancelled, and the
    todos, the store and the console are out of its reach. *)
Theorem dismissToast_spec (id : string) (w : World) :
  (∀ t, t ∈ toasts (dismissToast id w) ↔ t ∈ toasts w ∧ Toast.id t ≠ id) ∧
  sublist (toasts (dismissToast id w)) (toasts w) ∧
  ((∀ t, t ∈ toasts w → Toast.id t ≠ id) → dismissToast id w = w) ∧
  dismissToast id (dismissToast id w) = dismissToast id w ∧
  (∀ id', dismissToast id (dismissToast id' w) =
          dismissToast id' (dismissToast id w)) ∧
  timers (dismissToast id w) = timers w ∧
  todos (dismissToast id w) = todos w ∧
  env (dismissToast id w) = env w.
Proof.
  split; [|split; [|split; [|split; [|split]]]]; try done.
  - intros t. apply without_toast_elem.
  - unfold dismissToast, without_toast. simpl.
    induction (toasts w) as [|t rest IH]; simpl; [done|].
    destruct (negb _); [by apply sublist_skip|by apply sublist_cons].
  - intros H. unfold dismissToast. rewrite without_toast_none by done.
    by destruct w.
  - unfold dismissToast, set_toasts. simpl. f_equal.
    apply without_toast_none. intros t Ht. by apply without_toast_elem in Ht as [_ ?].
  - intros id'. unfold dismissToast, set_toasts. simpl. f_equal.
    apply without_toast_comm.
Qed.

(** What running the due timers leaves. *)
Lemma due_timers_run due : ∀ w,
  let w' := fold_left
              (fun w (tm : Z * string) =>
                 set_toasts (without_toast tm.2 (toasts w)) w) due w in
  (∀ t, t ∈ toasts w' ↔ t ∈ toasts w ∧ ∀ tm, tm ∈ due → tm.2 ≠ Toast.id t) ∧
  env w' = env w ∧ todos w' = todos w ∧ saved w' = saved w ∧
  clock w' = clock w ∧ timers w' = timers w.
Proof.
  induction due as [|tm due IH]; intros w; simpl.
  - split; [|done]. intros t. split; [|tauto]. intros H. split; [done|].
    intros tm Htm. by apply elem_of_nil in Htm.
  - destruct (IH (set_toasts (without_toast tm.2 (toasts w)) w))
      as (Hin & Henv & Htodos & Hsaved & Hclock & Htimers).
    simpl in *. split; [|done]. intros t. rewrite Hin, without_toast_elem.
    split.
    + intros [[Ht Hne] Hall]. split; [done|]. intros tm' Htm'.
      apply elem_of_cons in Htm' as [->|Htm']; [congruence|by apply Hall].
    + intros [Ht Hall]. split; [split; [done|]|].
      * intros Heq. apply (Hall tm); [left|done].
      * intros tm' Htm'. apply Hall. by right.
Qed.

Lemma advance_spec dt w :
  (∀ t, t ∈ toasts (advance dt w) ↔
        t ∈ toasts w ∧ ∀ tm, tm ∈ timers w → tm.1 ≤ clock w + dt → tm.2 ≠ Toast.id t) ∧
  (∀ tm, tm ∈ timers (advance dt w) ↔ tm ∈ timers w ∧ clock w + dt < tm.1) ∧
  clock (advance dt w) = clock w + dt ∧
  env (advance dt w) = env w ∧ todos (advance dt w) = todos w ∧
  saved (advance dt w) = saved w.
Proof.
  unfold advance.
  match goal with |- context [fold_left ?f ?due ?w0] =>
    destruct (due_timers_run due w0) as (Hin & Henv & Htodos & Hsaved & Hclock & Htimers)
  end.
  simpl in *. rewrite Henv, Htodos, Hsaved, Hclock, Htimers.
  split; [|split; [|done]].
  - intros t. rewrite Hin. split; intros [Ht Hall]; (split; [done|]).
    + intros tm Htm Hdue. apply Hall.
      apply list_elem_of_In, filter_In. split; [by apply list_elem_of_In|].
      by apply Z.leb_le.
    + intros tm Htm. apply list_elem_of_In, filter_In in Htm as [Htm Hdue].
      apply Hall; [by apply list_elem_of_In|by apply Z.leb_le].
  - intros tm. rewrite list_elem_of_In, filter_In, negb_true_iff, Z.leb_gt.
    by rewrite <- list_elem_of_In.
Qed.

(** X17: the life of a toast: [showToast] appends it, and it is displayed until
    its duration (5000 ms when none is given, and within the range of
    [setTimeout], a 32-bit delay) has passed, unless a timer that comes due
    earlier carries the same id; once the duration has passed, no toast
    with its id is left.  Neither the todos nor the store are touched. *)
Theorem toast_lifetime (w : World) (message : string)
    (type : option Toast.ToastType) (duration : option Z) (dt : Z) :
  let id := Number_toString (clock w) in
  let shown := {| Toast.id := id; Toast.message := message;
                  Toast.type := default Toast.info type;
                  Toast.duration := default 5000 duration |} in
  let w' := advance dt (showToast message type duration w) in
  toasts (showToast message type duration w) = toasts w ++ [shown] ∧
  (dt < default 5000 duration ≤ 2147483647 →
   (∀ tm, tm ∈ timers w → tm.1 ≤ clock w + dt → tm.2 ≠ id) →
   shown ∈ toasts w') ∧
  (default 5000 duration ≤ dt → ∀ t, t ∈ toasts w' → Toast.id t ≠ id) ∧
  todos w' = todos w ∧ env w' = env w ∧ saved w' = saved w.
Proof.
  intros id shown w'. subst w'.
  destruct (advance_spec dt (showToast message type duration w))
    as (Hin & _ & _ & Henv & Htodos & Hsaved).
  split; [done|]. split; [|split; [|by rewrite Henv, Htodos, Hsaved]].
  - intros Hdt Hfresh. apply Hin. split.
    + unfold showToast. simpl. apply elem_of_app. right. by left.
    + intros tm Htm Hdue. unfold showToast in Htm, Hdue. simpl in *.
      apply elem_of_app in Htm as [Htm|Htm].
      * by apply Hfresh.
      * apply list_elem_of_singleton in Htm. subst tm. simpl in Hdue. lia.
  - intros Hdt t Ht. apply Hin in Ht as [_ Hall]. intros Heq.
    apply (Hall (clock w + default 5000 duration, id)).
    + unfold showToast. simpl. apply elem_of_app. right. by left.
    + unfold showToast. simpl. lia.
    + by rewrite Heq.
Qed.


(** ** Runs on the sample stores *)

Lemma loadTodos_returns_valid_dates_witness :
  isValidTodos (JArr (map normalise_createdAt [sample_todo; sample_wire_todo])) = true ∧
  Forall (fun todo => instanceof_Date (get_prop todo "createdAt") = true)
    (map normalise_createdAt [sample_todo; sample_wire_todo]).
Proof.
  apply (loadTodos_returns_valid_dates
           (healthy {[ STORAGE_KEY := sample_text ]})
           (healthy {[ STORAGE_KEY := sample_text ]})).
  vm_compute. reflexivity.
Defined.

Lemma adapter_touches_only_its_key_witness :
  (∀ e' r,
     loadTodos (healthy {[ "theme" := "dark"; STORAGE_KEY := "invalid json" ]}) = (e', r) →
     items (sessionStorage e') !! "theme" = Some "dark") ∧
  (∀ todos e' r,
     saveTodos todos (healthy {[ "theme" := "dark"; STORAGE_KEY := "invalid json" ]})
       = (e', r) →
     items (sessionStorage e') !! "theme" = Some "dark").
Proof.
  assert (Hne : "theme" ≠ STORAGE_KEY) by discriminate.
  exact (adapter_touches_only_its_key
           (healthy {[ "theme" := "dark"; STORAGE_KEY := "invalid json" ]}) "theme" Hne).
Defined.

Lemma loadTodos_settles_witness :
  loadTodos (logged [Warn WARN_LOAD_FAILED (Some (SyntaxError "Unexpected token in JSON"))]
               (healthy ∅))
    = (logged [Warn WARN_LOAD_FAILED (Some (SyntaxError "Unexpected token in JSON"))]
         (healthy ∅),
       Normal []).
Proof.
  apply (loadTodos_settles (healthy {[ STORAGE_KEY := "invalid json" ]})).
  - reflexivity.
  - reflexivity.
  - vm_compute. reflexivity.
Defined.

Lemma loadTodos_never_throws_witness :
  ∃ e',
    loadTodos (unreadable {[ STORAGE_KEY := "[]" ]} (TypeError "denied"))
      = (e', Normal []) ∧
    console e' = [Warn WARN_LOAD_FAILED (Some (TypeError "denied"))] ∧
    items (sessionStorage e') = delete STORAGE_KEY {[ STORAGE_KEY := "[]" ]}.
Proof.
  destruct (loadTodos_never_throws
              (unreadable {[ STORAGE_KEY := "[]" ]} (TypeError "denied")))
    as (e' & loaded & Hload & Hfault).
  destruct (Hfault (TypeError "denied") eq_refl) as (-> & Hlog & Hitems).
  exists e'. split; [exact Hload|]. split; [exact Hlog|exact Hitems].
Defined.

Lemma loadTodos_keeps_records_witness :
  ∃ loaded,
    loadTodos (healthy {[ STORAGE_KEY := sample_text ]})
      = (healthy {[ STORAGE_KEY := sample_text ]}, Normal loaded) ∧
    length loaded = 2%nat ∧
    ∀ i todo,
      array_elems (toJSON (JArr [sample_todo; sample_wire_todo])) !! i = Some todo →
      ∃ todo',
        loaded !! i = Some todo' ∧
        map fst (own_props todo') = map fst (own_props todo) ∧
        (∀ k, k ≠ "createdAt" → get_prop todo' k = get_prop todo k) ∧
        get_prop todo' "createdAt" =
          match get_prop todo "createdAt" with
          | JStr s => JDate (Date_parse s)
          | created => created
          end.
Proof.
  assert (Hne : sample_text ≠ "") by discriminate.
  assert (Hparse : JSON_parse sample_text =
            Some (JArr (array_elems (toJSON (JArr [sample_todo; sample_wire_todo])))))
    by (vm_compute; reflexivity).
  exact (loadTodos_keeps_records (healthy {[ STORAGE_KEY := sample_text ]})
           sample_text _ eq_refl (lookup_singleton_eq _ _) Hne Hparse eq_refl).
Defined.

Lemma deleted_spec_witness :
  deleted "missing" [sample_todo; sample_wire_todo] = [sample_todo; sample_wire_todo].
Proof.
  destruct (deleted_spec "missing" [sample_todo; sample_wire_todo])
    as (_ & _ & _ & Hunknown & _).
  apply Hunknown. intros todo Hin.
  apply elem_of_cons in Hin as [->|Hin]; [reflexivity|].
  apply list_elem_of_singleton in Hin. subst todo. reflexivity.
Defined.

Lemma edited_merges_witness :
  length (edited "1" [("title", JStr "New")] [sample_todo; sample_wire_todo])
    = 2%nat ∧
  (∀ i todo, [sample_todo; sample_wire_todo] !! i = Some todo →
     ∃ todo',
       edited "1" [("title", JStr "New")] [sample_todo; sample_wire_todo] !! i
         = Some todo' ∧
       if strict_eq_str (get_prop todo "id") "1"
       then ∀ k, get_prop todo' k =
                 if obj_has k [("title", JStr "New")]
                 then obj_get k [("title", JStr "New")] else get_prop todo k
       else todo' = todo) ∧
  ([("title", JStr "New")] = [] →
   edited "1" [("title", JStr "New")] [sample_todo; sample_wire_todo]
     = [sample_todo; sample_wire_todo]).
Proof.
  apply (edited_merges "1" [("title", JStr "New")] [sample_todo; sample_wire_todo]).
  simpl. apply NoDup_singleton.
Defined.

Lemma edited_twice_witness :
  edited "1" [("completed", JBool true)] (edited "1" [("title", JStr "New")] [sample_todo])
    = edited "1" [("title", JStr "New"); ("completed", JBool true)] [sample_todo].
Proof.
  apply (edited_twice "1" [("title", JStr "New")] [("completed", JBool true)]
           [sample_todo]).
  reflexivity.
Defined.

Lemma toggled_twice_witness :
  toggled "1" (toggled "1" [sample_todo; sample_wire_todo])
    = [sample_todo; sample_wire_todo].
Proof.
  apply (toggled_twice "1" [sample_todo; sample_wire_todo]). reflexivity.
Defined.

Lemma operations_keep_shape_witness :
  isValidTodos
    (JArr (edited "1" [("title", JStr "New"); ("priority", JNum 1)]
             [sample_todo; sample_wire_todo])) = true.
Proof.
  apply (operations_keep_shape
           (EditTodo "1" [("title", JStr "New"); ("priority", JNum 1)]) 0
           [sample_todo; sample_wire_todo]).
  - reflexivity.
  - simpl. repeat constructor.
Defined.

Lemma refused_sample_heap_ok : heap_ok refused_sample.
Proof. unfold heap_ok. simpl. lia. Qed.

Lemma mounted_sample_heap_ok : heap_ok mounted_sample.
Proof. unfold heap_ok. simpl. lia. Qed.

Lemma failed_write_is_shown_witness :
  ∃ w' msg,
    addTodo "3" "New" "" refused_sample = Some w' ∧
    contents (todos w') = [sample_todo; newTodo "3" "New" "" 0] ∧
    items (sessionStorage (env w')) = ∅ ∧
    ((quota_exceeded quotaError ∧ msg = MSG_QUOTA) ∨
     (¬ quota_exceeded quotaError ∧ msg = MSG_SAVE_FAILED)) ∧
    toasts w' =
      [{| Toast.id := "0"; Toast.message := msg;
          Toast.type := Toast.warning; Toast.duration := 5000 |}] ∧
    timers w' = [(5000, "0")].
Proof.
  exact (failed_write_is_shown (AddTodo "3" "New" "") refused_sample quotaError
           refused_sample_heap_ok eq_refl).
Defined.

Lemma successful_write_mirrors_state_witness :
  ∃ w',
    toggleTodoCompletion "1" mounted_sample = Some w' ∧
    JSON_stringify (JArr (contents (todos w')))
      = Normal (Reference.print (toJSON (JArr (toggled "1" [sample_todo])))) ∧
    items (sessionStorage (env w')) !! STORAGE_KEY
      = Some (Reference.print (toJSON (JArr (toggled "1" [sample_todo])))) ∧
    toasts w' = [] ∧
    console (env w') = [].
Proof.
  exact (successful_write_mirrors_state (ToggleTodoCompletion "1") mounted_sample
           (Reference.print (toJSON (JArr (toggled "1" [sample_todo]))))
           mounted_sample_heap_ok eq_refl).
Defined.

Lemma addTodo_appends_witness :
  ∃ w' todo,
    addTodo "3" "New" "" mounted_sample = Some w' ∧
    contents (todos w') = [sample_todo; todo] ∧
    get_prop todo "id" = JStr "3" ∧
    get_prop todo "title" = JStr "New" ∧
    get_prop todo "description" = JStr "" ∧
    get_prop todo "completed" = JBool false ∧
    get_prop todo "createdAt" = JDate (Some 0) ∧
    valid_todo todo ∧
    saved w' = [[sample_todo]; [sample_todo; todo]].
Proof.
  exact (addTodo_appends "3" "New" "" mounted_sample mounted_sample_heap_ok).
Defined.

Lemma batch_keeps_last_operation_witness :
  (∃ w', run_batch [AddTodo "3" "New" ""; DeleteTodo "1"] mounted_sample = Some w' ∧
         contents (todos w') = []) ∧
  run_batch [DeleteTodo "1"] mounted_sample = deleteTodo "1" mounted_sample.
Proof.
  exact (batch_keeps_last_operation [AddTodo "3" "New" ""] (DeleteTodo "1")
           mounted_sample mounted_sample_heap_ok).
Defined.

Lemma reload_restores_the_collection_witness :
  ∃ w w' w'',
    mount (healthy ∅) 1672531200000 = Some w ∧ contents (todos w) = [] ∧
    run_all [AddTodo "a" "Test Todo" "Test Description";
             ToggleTodoCompletion "a";
             EditTodo "a" [("title", JStr "Renamed")];
             AddTodo "b" "Second" "";
             DeleteTodo "b"] w = Some w' ∧
    toasts w' = [] ∧ console (env w') = [] ∧
    mount (env w') 1672531201000 = Some w'' ∧
    contents (todos w'') = contents (todos w').
Proof.
  apply (reload_restores_the_collection (healthy ∅) [] 1672531200000).
  - by repeat split.
  - reflexivity.
  - left. split; [apply lookup_empty|reflexivity].
  - assert (Reference.time_value 1672531200000) by (unfold Reference.time_value; lia).
    apply Forall_cons; split; [exact H|].
    apply Forall_cons; split; [exact I|].
    apply Forall_cons; split.
    { simpl. apply Forall_cons. split; [|constructor].
      split; [reflexivity|discriminate]. }
    apply Forall_cons; split; [exact H|].
    apply Forall_cons; split; [exact I|constructor].
Defined.

Lemma dismissToast_spec_witness :
  dismissToast "missing" mounted_sample = mounted_sample.
Proof.
  destruct (dismissToast_spec "missing" mounted_sample) as (_ & _ & Hunknown & _).
  apply Hunknown. intros t Ht. simpl in Ht.
  apply elem_of_nil in Ht. destruct Ht.
Defined.

Lemma toast_lifetime_witness :
  {| Toast.id := "0"; Toast.message := "Saved";
     Toast.type := Toast.info; Toast.duration := 5000 |}
    ∈ toasts (advance 4999 (showToast "Saved" None None mounted_sample)) ∧
  ∀ t, t ∈ toasts (advance 5000 (showToast "Saved" None None mounted_sample)) →
       Toast.id t ≠ "0".
Proof.
  split.
  - destruct (toast_lifetime mounted_sample "Saved" None None 4999)
      as (_ & Hshown & _).
    apply Hshown; [simpl; lia|]. intros tm Htm. by apply elem_of_nil in Htm.
  - destruct (toast_lifetime mounted_sample "Saved" None None 5000)
      as (_ & _ & Hgone & _).
    apply Hgone. simpl. lia.
Defined.


(* ===================================================================== *)
(** * The test-suite of the repository, run on the model *)
(* ===================================================================== *)

(** [sessionStorage.test.ts], [describe('isValidTodos')]. *)
Example test_isValidTodos_valid_array :
  isValidTodos (JArr [sample_todo]) = true.
Proof. reflexivity. Qed.

Example test_isValidTodos_empty_array : isValidTodos (JArr []) = true.
Proof. reflexivity. Qed.

Example test_isValidTodos_non_array :
  isValidTodos JNull = false ∧ isValidTodos JUndefined = false ∧
  isValidTodos (JStr "string") = false ∧ isValidTodos (JNum 123) = false ∧
  isValidTodos (JObj []) = false.
Proof. by repeat split. Qed.

Example test_isValidTodos_missing_fields :
  isValidTodos (JArr [sample_todo;
                      JObj [("id", JStr "2"); ("title", JStr "Invalid Todo")]])
    = false.
Proof. reflexivity. Qed.

Example test_isValidTodos_wrong_field_type :
  isValidTodos (JArr [JObj [("id", JNum 123); ("title", JStr "Invalid Todo");
                            ("description", JStr "Description");
                            ("completed", JBool false);
                            ("createdAt", JDate (Some 1672531200000))]])
    = false.
Proof. reflexivity. Qed.

Example test_isValidTodos_createdAt_string :
  isValidTodos (JArr [sample_wire_todo]) = true.
Proof. reflexivity. Qed.

(** [describe('loadTodos')] *)
Example test_loadTodos_no_data :
  loadTodos (healthy ∅) = (healthy ∅, Normal []).
Proof. reflexivity. Qed.

Example test_loadTodos_valid :
  (loadTodos (healthy {[ STORAGE_KEY :=
                           Reference.print (toJSON (JArr [sample_todo])) ]})).2
    = Normal [sample_todo].
Proof. vm_compute. reflexivity. Qed.

Example test_loadTodos_corrupt_json :
  loadTodos (healthy {[ STORAGE_KEY := "invalid json" ]})
    = ({| sessionStorage :=
            {| items := ∅; getItem_fault := None; setItem_fault := None;
               removeItem_fault := None |};
          console := [Warn WARN_LOAD_FAILED
                        (Some (SyntaxError "Unexpected token in JSON"))] |},
       Normal []).
Proof. vm_compute. reflexivity. Qed.

Example test_loadTodos_invalid_structure :
  loadTodos (healthy {[ STORAGE_KEY :=
                          Reference.print (JArr [JObj [("invalid", JStr "structure")]]) ]})
    = ({| sessionStorage :=
            {| items := ∅; getItem_fault := None; setItem_fault := None;
               removeItem_fault := None |};
          console := [Warn WARN_INVALID None] |},
       Normal []).
Proof. vm_compute. reflexivity. Qed.

Example test_loadTodos_revives_dates :
  (loadTodos (healthy {[ STORAGE_KEY :=
                           Reference.print (JArr [sample_wire_todo]) ]})).2
    = Normal [JObj [("id", JStr "2"); ("title", JStr "Existing Todo");
                    ("description", JStr "From storage"); ("completed", JBool true);
                    ("createdAt", JDate (Some 1672531200000))]] ∧
  Date_toISOString 1672531200000 = "2023-01-01T00:00:00.000Z".
Proof. split; vm_compute; reflexivity. Qed.

(** [describe('saveTodos')] *)
Example test_saveTodos_success :
  saveTodos [sample_todo] (healthy ∅)
    = (healthy {[ STORAGE_KEY := Reference.print (toJSON (JArr [sample_todo])) ]},
       Normal {| success := true; error := None |}).
Proof. vm_compute. reflexivity. Qed.

Example test_saveTodos_quota :
  saveTodos [sample_todo] (refusing quotaError)
    = (logged [Warn WARN_QUOTA None] (refusing quotaError),
       Normal {| success := false; error := Some MSG_QUOTA |}).
Proof. vm_compute. reflexivity. Qed.

Example test_saveTodos_other_error :
  saveTodos [sample_todo] (refusing genericError)
    = (logged [Warn WARN_SAVE_FAILED (Some genericError)] (refusing genericError),
       Normal {| success := false; error := Some MSG_SAVE_FAILED |}).
Proof. vm_compute. reflexivity. Qed.

(** [TodoContextStorage.test.tsx]: adding to an empty collection makes two
    [saveTodos] calls, the first with the empty array and the last with the
    new record; a failing save shows its message as a warning. *)
Example test_provider_saves_on_add :
  ∃ w w',
    mount (healthy ∅) 7 = Some w ∧
    addTodo "uuid-1" "Test Todo" "Test Description" w = Some w' ∧
    saved w' = [[]; [newTodo "uuid-1" "Test Todo" "Test Description" 7]].
Proof. do 2 eexists. repeat split; vm_compute; reflexivity. Qed.

Example test_provider_toast_on_failure :
  ∃ w,
    mount (refusing quotaError) 7 = Some w ∧
    toasts w = [{| Toast.id := "7"; Toast.message := MSG_QUOTA;
                   Toast.type := Toast.warning; Toast.duration := 5000 |}].
Proof. eexists. split; vm_compute; reflexivity. Qed.
